(** * WHAM2DRunner: boundary derivation, solver invocation and grid projection

    A shallow embedding of [adaptiveumbrella/wham2d.py].

    Numbers.  The Python code computes with double-precision values that
    reach it from three places: the CV definition (lambda coordinates and
    lambda steps), the solver's output table, and the PMF grid.  A number
    is an IEEE 754 binary64 value ([spec_float] of the standard library: a
    signed zero, a signed infinity, NaN, or sign, mantissa and exponent),
    and arithmetic is the standard library's specification of the IEEE
    operations at precision 53, rounding to nearest, ties to even: every
    subtraction, product, sum and square root is rounded as the hardware
    rounds it.  [frac p q] is the double that Python writes [p/q], so
    [frac 9 10] is the literal [0.9].  [exact] gives the rational that a
    finite double denotes; it is used to compare what the code computes
    with what exact arithmetic would give.  The theorems hold for every
    value of [spec_float], the doubles among them.

    Collaborators.  The methods of the base class [UmbrellaRunner], the
    formatting of floats, the external solver and the parser of
    [pd.read_csv] are not in [wham2d.py]: they are parameters.

    Effects.  The file system, the console and the external solver are an
    explicit [world]; a method of the runner is a function from a world to
    an outcome (a value or a raised exception) and a new world.  Files are
    opened in a directory that exists: [__init__] creates [tmp_folder]. *)

From Stdlib Require Import QArith Qabs Lia ZArith Ascii SpecFloat.
From stdpp Require Import base option list gmap strings pretty.

Open Scope Q_scope.

(** ** Numbers *)

(** binary64 *)
Definition prec : Z := 53.
Definition emax : Z := 1024.

Abbreviation num := spec_float (only parsing).

Definition NaN : num := S754_nan.
Definition PInf : num := S754_infinity false.
Definition NInf : num := S754_infinity true.
Definition fzero : num := S754_zero false.

(** [a - b], [a + b], [a * b], [a / b], [sqrt(a)], [abs(a)] *)
Definition fsub : num → num → num := SFsub prec emax.
Definition fadd : num → num → num := SFadd prec emax.
Definition fmul : num → num → num := SFmul prec emax.
Definition fdiv : num → num → num := SFdiv prec emax.
Definition fsqrt : num → num := SFsqrt prec emax.
Definition fabs : num → num := SFabs.

(** [a < b], [a == b], [a <= b]: false when either side is NaN *)
Definition fltb : num → num → bool := SFltb.
Definition feqb : num → num → bool := SFeqb.
Definition fleb : num → num → bool := SFleb.

(** [float(z)] *)
Definition of_int (z : Z) : num := binary_normalize prec emax z 0 false.

(** [p/q] for two integers *)
Definition frac (p q : Z) : num := fdiv (of_int p) (of_int q).

Definition isnan (a : num) : bool :=
  match a with S754_nan => true | _ => false end.

Definition isinf (a : num) : bool :=
  match a with S754_infinity _ => true | _ => false end.

Definition isfinite (a : num) : bool :=
  match a with S754_zero _ | S754_finite _ _ _ => true | _ => false end.

(** zero, a finite number or an infinity, with sign bit [s] *)
Definition has_sign (s : bool) (a : num) : bool :=
  match a with
  | S754_zero s' | S754_infinity s' | S754_finite s' _ _ => Bool.eqb s s'
  | S754_nan => false
  end.

(** the rational that a finite double denotes *)
Definition exact (a : num) : Q :=
  match a with
  | S754_finite s m e =>
      let z := if s then Zneg m else Zpos m in
      match e with
      | Zneg k => z # (2 ^ k)%positive
      | _ => inject_Z (z * 2 ^ e)
      end
  | _ => 0
  end.

(** ** The solver output table

    [pd.read_csv(..., names=['x', 'y', 'e', 'pro'])]: a data frame is the
    list of its rows, in file order. *)

Record row : Type := Row { x : num; y : num; e : num; pro : num }.

Abbreviation frame := (list row) (only parsing).

(** [np.linalg.norm((dx, dy))]: the square root of the dot product of the
    vector with itself, [sqrt(dx*dx + dy*dy)]; the two products, their sum
    and the root are each rounded *)
Definition linalg_norm (dx dy : num) : num :=
  fsqrt (fadd (fmul dx dx) (fmul dy dy)).

(** [Series.min()]: NaN entries are skipped; NaN when nothing is left *)
Definition min_skipna (m d : num) : num :=
  if isnan d then m
  else if isnan m then d
  else if fltb d m then d else m.

Definition series_min (s : list num) : num :=
  fold_left min_skipna s NaN.

(** ** Exceptions and outcomes *)

Inductive exn : Type :=
  | ValueError          (* reduction of a zero-size array *)
  | IndexError          (* [iloc[0]] on an empty selection, index out of range *)
  | FileNotFoundError
  | ParserError
  | SystemExit (code : Z).

Inductive outcome (A : Type) : Type :=
  | Ret (a : A)
  | Raise (ex : exn).
Arguments Ret {A} a.
Arguments Raise {A} ex.

(** a [for] loop whose body may raise: the first exception ends the loop and
    leaves the state as the body left it *)
Fixpoint for_each {S A : Type} (l : list A) (body : A → S → outcome unit * S)
    (s : S) : outcome unit * S :=
  match l with
  | [] => (Ret tt, s)
  | a :: l' =>
      match body a s with
      | (Ret _, s') => for_each l' body s'
      | (Raise ex, s') => (Raise ex, s')
      end
  end.

(** ** Two-dimensional arrays *)

Abbreviation grid A := (list (list A)) (only parsing).

(** [a.shape] *)
Definition shape {A : Type} (a : grid A) : nat * nat :=
  (length a, match a with [] => 0%nat | r :: _ => length r end).

(** every row of an [ndarray] has [a.shape[1]] entries *)
Definition rectangular {A : Type} (a : grid A) : Prop :=
  Forall (λ r, length r = (shape a).2) a.

(** [a.shape == (n, m)] *)
Definition has_shape {A : Type} (a : grid A) (n m : nat) : Prop :=
  length a = n ∧ Forall (λ r, length r = m) a.

(** [a[ix, iy]] *)
Definition getitem {A : Type} (a : grid A) (ix iy : nat) : option A :=
  a !! ix ≫= λ r, r !! iy.

(** [a[ix, iy] = v]: [None] stands for the IndexError of an index out of
    range *)
Definition setitem {A : Type} (a : grid A) (ix iy : nat) (v : A) : option (grid A) :=
  match a !! ix with
  | Some r => if decide (iy < length r)%nat then Some (<[ix := <[iy := v]> r]> a) else None
  | None => None
  end.

(** ** The grid projector *)

Section GridProjector.

(** [self._get_lambdas_for_index], a method of the base class
    [UmbrellaRunner]: the coordinate pair of an index pair. *)
Variable get_lambdas_for_index : nat * nat → num * num.

(** [self.cvs[0][2]] and [self.cvs[1][2]]: the lambda step of each axis *)
Variables step_x step_y : num.

(** the mask of line 115,
    [(abs(wham_pmf.x-lambdax) < cvs[0][2]) & (abs(wham_pmf.y-lambday) < cvs[1][2])] *)
Definition window (lambdax lambday : num) (r : row) : bool :=
  fltb (fabs (fsub (x r) lambdax)) step_x
  && fltb (fabs (fsub (y r) lambday)) step_y.

Definition reduced_rows (wham_pmf : frame) (lambdax lambday : num) : frame :=
  List.filter (window lambdax lambday) wham_pmf.

(** the lambda of line 119 *)
Definition dist_of (lambdax lambday : num) (r : row) : num :=
  linalg_norm (fsub lambdax (x r)) (fsub lambday (y r)).

(** [s.iloc[0]] *)
Definition iloc0 {A : Type} (s : list A) : outcome A :=
  match s with
  | [] => Raise IndexError
  | a :: _ => Ret a
  end.

(** the body of the inner loop, lines 114-122, up to the assignment: the
    value that is written to [self.pmf[x, y]].  [reduced] with its added
    column [dist] is the list of pairs (row, dist). *)
Definition cell_value (wham_pmf : frame) (ix iy : nat) : outcome num :=
  let '(lambdax, lambday) := get_lambdas_for_index (ix, iy) in
  let reduced := reduced_rows wham_pmf lambdax lambday in
  if (length reduced =? 0)%nat then Ret PInf
  else
    let reduced := map (λ r, (r, dist_of lambdax lambday r)) reduced in
    let dist_min := series_min (map snd reduced) in
    let min := List.filter (λ rd, feqb (snd rd) dist_min) reduced in
    match iloc0 (map (λ rd, x (fst rd)) min), iloc0 (map (λ rd, y (fst rd)) min) with
    | Ret min_x, Ret min_y =>
        let min_row :=
          List.filter (λ rd, feqb (x (fst rd)) min_x && feqb (y (fst rd)) min_y) reduced in
        iloc0 (map (λ rd, e (fst rd)) min_row)
    | Raise ex, _ | _, Raise ex => Raise ex
    end.

Definition update_cell (wham_pmf : frame) (ix iy : nat) (pmf : grid num)
    : outcome unit * grid num :=
  match cell_value wham_pmf ix iy with
  | Ret v =>
      match setitem pmf ix iy v with
      | Some pmf' => (Ret tt, pmf')
      | None => (Raise IndexError, pmf)
      end
  | Raise ex => (Raise ex, pmf)
  end.

(** [update_pmf]: the PMF grid is changed in place, cell by cell *)
Definition update_pmf (wham_pmf : frame) (pmf : grid num) : outcome unit * grid num :=
  let '(n, m) := shape pmf in
  for_each (seq 0 n)
    (λ ix pmf, for_each (seq 0 m) (λ iy pmf, update_cell wham_pmf ix iy pmf) pmf)
    pmf.

End GridProjector.

(** the square of the Euclidean distance from [(lambdax, lambday)] to the
    [(x, y)] of a row, in exact arithmetic on the numbers that the doubles
    denote *)
Definition exact_sqdist (lambdax lambday : num) (r : row) : Q :=
  (exact lambdax - exact (x r)) * (exact lambdax - exact (x r))
  + (exact lambday - exact (y r)) * (exact lambday - exact (y r)).

(** a cell of the PMF grid holds the value computed for it *)
Definition projected (get_lambdas_for_index : nat * nat → num * num) (step_x step_y : num)
    (wham_pmf : frame) (pmf : grid num) (ix iy : nat) : Prop :=
  ∃ v, cell_value get_lambdas_for_index step_x step_y wham_pmf ix iy = Ret v
       ∧ getitem pmf ix iy = Some v.


(** ** The runner

    The attributes of [WHAM2DRunner] that the methods read.  [cvs] holds a
    triple [(min, max, step)] for each axis; [whamconfig] holds the text of
    each configured value, which is all the code uses of them. *)

Record cv : Type := CV { cv_min : num; cv_max : num; cv_step : num }.

Record config : Type := Config {
  Px : string; Py : string;
  num_bins_x : string; num_bins_y : string;
  tolerance : string; temperature : string; mask : string;
  fc_x : string; fc_y : string }.

Record runner : Type := Runner {
  verbose : bool;
  WHAM_EXEC : string;
  tmp_folder : string;
  simulation_folder : string;
  num_iterations : nat;
  cvs : cv * cv;
  whamconfig : config;
  sample_list : grid Z;
  pmf : grid num }.

Definition set_pmf (self : runner) (pmf' : grid num) : runner :=
  Runner (verbose self) (WHAM_EXEC self) (tmp_folder self) (simulation_folder self)
         (num_iterations self) (cvs self) (whamconfig self) (sample_list self) pmf'.

(** ** The world outside the runner

    Files are a finite map from paths to their text.  What the program does
    to the outside, other than writing files, is logged in order: a line
    printed to the console, a command run by [subprocess.call], a file
    opened for reading. *)

Inductive event : Type :=
  | Print (line : string)
  | Call (cmd : string)
  | Read (path : string).

Record world : Type := World { fs : gmap string string; trace : list event }.

(** the commands run and the files read, in order *)
Definition calls (tr : list event) : list string :=
  omap (λ ev, match ev with Call cmd => Some cmd | _ => None end) tr.

Definition reads (tr : list event) : list string :=
  omap (λ ev, match ev with Read path => Some path | _ => None end) tr.

(** a method: from a world to an outcome and a new world; an exception
    leaves the world as it was when it was raised *)
Definition M (A : Type) : Type := world → outcome A * world.

Definition ret {A : Type} (a : A) : M A := λ w, (Ret a, w).

Definition raise {A : Type} (ex : exn) : M A := λ w, (Raise ex, w).

Definition bind {A B : Type} (c : M A) (k : A → M B) : M B :=
  λ w, match c w with
       | (Ret a, w') => k a w'
       | (Raise ex, w') => (Raise ex, w')
       end.

Notation "'do' a <- c ; k" := (bind c (λ a, k))
  (at level 10, a name, c at level 100, k at level 200).
Notation "c ;; k" := (bind c (λ _, k))
  (at level 100, k at level 200, right associativity).

(** [print(line)] *)
Definition print (line : string) : M unit :=
  λ w, (Ret tt, World (fs w) (trace w ++ [Print line])).

(** [os.path.exists(path)] *)
Definition path_exists (path : string) : M bool :=
  λ w, (Ret (bool_decide (is_Some (fs w !! path))), w).

(** [open(path, 'w')]: the file is created, or emptied; the directory of
    [path] exists *)
Definition open_w (path : string) : M unit :=
  λ w, (Ret tt, World (<[path := ""]> (fs w)) (trace w)).

(** [out.write(text)] on the file opened at [path] *)
Definition write (path text : string) : M unit :=
  λ w, (Ret tt, World (<[path := default "" (fs w !! path) +:+ text]> (fs w)) (trace w)).

(** ** Paths and text *)

Definition tab : string := String "009"%char "".
Definition newline : string := String "010"%char "".

Definition starts_with_sep (s : string) : bool :=
  match s with
  | String "/"%char _ => true
  | _ => false
  end.

Fixpoint ends_with_sep (s : string) : bool :=
  match s with
  | "" => false
  | String c "" => Ascii.eqb c "/"%char
  | String _ s' => ends_with_sep s'
  end.

(** one step of [posixpath.join] *)
Definition join2 (path b : string) : string :=
  if starts_with_sep b then b
  else if (String.eqb path "" || ends_with_sep path)%bool then path +:+ b
  else path +:+ "/" +:+ b.

(** [os.path.join(a, *p)] *)
Definition path_join (a : string) (p : list string) : string :=
  fold_left join2 p a.

(** the text of a list of lines *)
Definition text_of (lines : list string) : string :=
  foldr String.app "" lines.

(** ** The boundary calculator *)

(** [np.nonzero(a)] for a two-dimensional array: the index pairs of the
    cells that are not zero, in row-major order; the result of [np.nonzero]
    is the pair of the two columns of this list *)
Fixpoint nonzero_in_row (ix iy : nat) (r : list Z) : list (nat * nat) :=
  match r with
  | [] => []
  | c :: r' =>
      (if (c =? 0)%Z then [] else [(ix, iy)]) ++ nonzero_in_row ix (S iy) r'
  end.

Fixpoint nonzero_from (ix : nat) (a : grid Z) : list (nat * nat) :=
  match a with
  | [] => []
  | r :: a' => nonzero_in_row ix 0 r ++ nonzero_from (S ix) a'
  end.

Definition nonzero (a : grid Z) : list nat * list nat :=
  let cells := nonzero_from 0 a in (map fst cells, map snd cells).

(** the cell at [(ix, iy)] exists and is not zero *)
Definition sampled (a : grid Z) (ix iy : nat) : Prop :=
  ∃ c, getitem a ix iy = Some c ∧ c ≠ 0%Z.

(** [a.min()] and [a.max()]: a zero-size array has no minimum *)
Definition array_min (a : list nat) : outcome nat :=
  match a with
  | [] => Raise ValueError
  | i :: a' => Ret (fold_left Nat.min a' i)
  end.

Definition array_max (a : list nat) : outcome nat :=
  match a with
  | [] => Raise ValueError
  | i :: a' => Ret (fold_left Nat.max a' i)
  end.

Definition obind {A B : Type} (c : outcome A) (k : A → outcome B) : outcome B :=
  match c with
  | Ret a => k a
  | Raise ex => Raise ex
  end.

Section Runner.

(** Collaborators that are not part of [wham2d.py]. *)

(** [self._get_lambdas_for_index], of the base class [UmbrellaRunner] *)
Variable get_lambdas_for_index : nat * nat → num * num.

(** [self._get_sampled_lambdas], of the base class [UmbrellaRunner] *)
Variable get_sampled_lambdas : runner → list (num * num).

(** the text that [str.format] and f-strings give for a float *)
Variable str_float : num → string.

(** the external solver: what running a command does to the files, and its
    exit status *)
Variable solver : string → gmap string string → Z * gmap string string.

(** the parser of [pd.read_csv] with the arguments of line 103: the rows of
    a text, or nothing when the text is malformed *)
Variable read_csv : string → option (list row).

(** [get_wham_borders]; [2*self.cvs[0][2]] is the product of the doubles
    2.0 and the step *)
Definition get_wham_borders (self : runner) : outcome (list num) :=
  let nonzero := nonzero (sample_list self) in
  obind (array_min nonzero.1) (λ min0,
  obind (array_min nonzero.2) (λ min1,
  let lo := get_lambdas_for_index (min0, min1) in
  obind (array_max nonzero.1) (λ max0,
  obind (array_max nonzero.2) (λ max1,
  let hi := get_lambdas_for_index (max0, max1) in
  let borders := [lo.1; lo.2; hi.1; hi.2] in
  let borders := alter (λ b, fsub b (fmul (of_int 2) (cv_step (cvs self).1))) 0%nat borders in
  let borders := alter (λ b, fsub b (fmul (of_int 2) (cv_step (cvs self).2))) 1%nat borders in
  let borders := alter (λ b, fadd b (fmul (of_int 2) (cv_step (cvs self).1))) 2%nat borders in
  let borders := alter (λ b, fadd b (fmul (of_int 2) (cv_step (cvs self).2))) 3%nat borders in
  Ret borders)))).

(** [create_metadata_file] *)
Definition colvar_file (self : runner) (l : num * num) : string :=
  path_join (simulation_folder self)
    ["umb_" +:+ str_float l.1 +:+ "_" +:+ str_float l.2; "COLVAR"].

Definition metadata_path (self : runner) : string :=
  path_join (tmp_folder self) [pretty (num_iterations self) +:+ "_metadata.dat"].

Definition metadata_line (self : runner) (l : num * num) : string :=
  colvar_file self l +:+ tab +:+ str_float l.1 +:+ tab +:+ str_float l.2 +:+ tab
  +:+ fc_x (whamconfig self) +:+ tab +:+ fc_y (whamconfig self) +:+ newline.

(** the test of line 38, negated: the entry is written *)
Definition written (self : runner) (files : gmap string string) (l : num * num) : bool :=
  negb (negb (bool_decide (is_Some (files !! colvar_file self l))) && verbose self).

(** the report of line 39 *)
Definition not_found (self : runner) (l : num * num) : event :=
  Print ("Not found: " +:+ colvar_file self l).

Definition metadata_entry (self : runner) (path : string) (l : num * num) : M unit :=
  do found <- path_exists (colvar_file self l);
  if (negb found && verbose self)%bool
  then print ("Not found: " +:+ colvar_file self l)
  else write path (metadata_line self l).

Definition create_metadata_file (self : runner) : M string :=
  let path := metadata_path self in
  open_w path ;;
  for_each (get_sampled_lambdas self) (metadata_entry self path) ;;
  ret path.

(** [get_wham_output_file] *)
Definition get_wham_output_file (self : runner) : string :=
  path_join (tmp_folder self) [pretty (num_iterations self) +:+ "_freeenergy.dat"].

(** the command line of lines 75-90 *)
Definition wham_cmd (self : runner) (borders : list num)
    (metafile_path output_path : string) : string :=
  let c := whamconfig self in
  WHAM_EXEC self +:+ " Px=" +:+ Px c
  +:+ " " +:+ str_float (nth 0 borders fzero) +:+ " " +:+ str_float (nth 2 borders fzero)
  +:+ " " +:+ num_bins_x c +:+ " Py=" +:+ Py c
  +:+ " " +:+ str_float (nth 1 borders fzero) +:+ " " +:+ str_float (nth 3 borders fzero)
  +:+ " " +:+ num_bins_y c +:+ " " +:+ tolerance c +:+ " " +:+ temperature c
  +:+ " 0 " +:+ metafile_path +:+ " " +:+ output_path +:+ " " +:+ mask c.

(** [subprocess.call(cmd, shell=True)]: the call is logged, the solver
    changes the files, its exit status is the result *)
Definition subprocess_call (cmd : string) : M Z :=
  λ w, let '(err_code, fs') := solver cmd (fs w) in
       (Ret err_code, World fs' (trace w ++ [Call cmd])).

(** [exit(1)] *)
Definition exit {A : Type} (code : Z) : M A := raise (SystemExit code).

(** [run_wham2d] *)
Definition run_wham2d (self : runner) (metafile_path output_path : string) : M unit :=
  do cached <- path_exists output_path;
  if cached
  then print ("skipping wham, " +:+ output_path +:+ " already exists.")
  else
    do borders <- (λ w, (get_wham_borders self, w));
    let cmd := wham_cmd self borders metafile_path output_path in
    do err_code <- (if verbose self
                    then print cmd ;; subprocess_call cmd
                    else subprocess_call cmd);
    if (err_code =? 0)%Z then ret tt
    else
      print ("wham exited with error code " +:+ pretty err_code) ;;
      exit 1.

(** [df.replace([np.inf, -np.inf], np.nan)]: in every column *)
Definition replace_inf (v : num) : num :=
  if isinf v then NaN else v.

Definition replace_inf_row (r : row) : row :=
  Row (replace_inf (x r)) (replace_inf (y r)) (replace_inf (e r)) (replace_inf (pro r)).

(** [df.dropna(subset=['e'], how='all')] *)
Definition dropna_e (df : frame) : frame :=
  List.filter (λ r, negb (isnan (e r))) df.

(** [load_wham_pmf] *)
Definition load_wham_pmf (wham_file : string) : M frame :=
  λ w, let w' := World (fs w) (trace w ++ [Read wham_file]) in
       match fs w !! wham_file with
       | None => (Raise FileNotFoundError, w)
       | Some text =>
           match read_csv text with
           | None => (Raise ParserError, w')
           | Some df => (Ret (dropna_e (map replace_inf_row df)), w')
           end
       end.

(** [calculate_new_pmf]; the runner that comes back is [self] after the
    call, with the PMF grid as [update_pmf] left it *)
Definition calculate_new_pmf (self : runner) : world → outcome (grid num) * runner * world :=
  λ w,
  match create_metadata_file self w with
  | (Raise ex, w) => (Raise ex, self, w)
  | (Ret metafile_path, w) =>
      let wham_pmf_file := get_wham_output_file self in
      match run_wham2d self metafile_path wham_pmf_file w with
      | (Raise ex, w) => (Raise ex, self, w)
      | (Ret _, w) =>
          match load_wham_pmf wham_pmf_file w with
          | (Raise ex, w) => (Raise ex, self, w)
          | (Ret wham_pmf, w) =>
              match update_pmf get_lambdas_for_index
                      (cv_step (cvs self).1) (cv_step (cvs self).2) wham_pmf (pmf self) with
              | (Raise ex, pmf') => (Raise ex, set_pmf self pmf', w)
              | (Ret _, pmf') => (Ret pmf', set_pmf self pmf', w)
              end
          end
      end
  end.

End Runner.

(** ** A small run, for the examples

    A 3x3 grid with origin 0 and lambda step 0.5 on both axes, sampled at
    index (1, 1) only; a number is printed as a fraction; the
    solver either writes a two-row table or fails with status 2. *)

Definition lambdas_half (idx : nat * nat) : num * num :=
  (frac (Z.of_nat idx.1) 2, frac (Z.of_nat idx.2) 2).

Definition pmf_3x3 : grid num :=
  [[fzero; fzero; fzero]; [fzero; fzero; fzero]; [fzero; fzero; fzero]].

Definition wham_two_rows : frame :=
  [Row (frac 9 10) (frac 9 10) (of_int (-2)) (frac 1 2);
   Row (frac 14 10) (frac 14 10) (of_int 10) (frac 1 2)].

(** a number printed as the fraction it denotes, in lowest terms *)
Definition str_fraction (a : num) : string :=
  match a with
  | S754_nan => "nan"
  | S754_infinity s => if s then "-inf" else "inf"
  | _ => let q := Qred (exact a) in pretty (Qnum q) +:+ ":" +:+ pretty (Zpos (Qden q))
  end.

Definition demo_config : config :=
  Config "0" "0" "10" "10" "0.01" "300" "1" "100" "100".

Definition demo_cvs : cv * cv :=
  (CV fzero (of_int 1) (frac 1 2), CV fzero (of_int 1) (frac 1 2)).

Definition demo_runner (verbose : bool) (sample_list : grid Z) : runner :=
  Runner verbose "wham-2d" "tmp/WHAM" "tmp/simulations" 0
         demo_cvs demo_config sample_list pmf_3x3.

Definition sampled_once : grid Z := [[0; 0; 0]; [0; 3; 0]; [0; 0; 0]]%Z.

Definition sampled_never : grid Z := [[0; 0; 0]; [0; 0; 0]; [0; 0; 0]]%Z.

(** two cells that are not zero, in different rows and columns *)
Definition sampled_twice : grid Z := [[0; 5; 0]; [0; 0; 0]; [3; 0; 0]]%Z.

Definition demo_sampled_lambdas (self : runner) : list (num * num) :=
  map lambdas_half (nonzero_from 0 (sample_list self)).

Definition solver_writes_table (cmd : string) (files : gmap string string)
    : Z * gmap string string :=
  (0%Z, <["tmp/WHAM/0_freeenergy.dat" := "two rows"]> files).

Definition solver_fails (cmd : string) (files : gmap string string)
    : Z * gmap string string :=
  (2%Z, files).

Definition demo_read_csv (text : string) : option (list row) :=
  if String.eqb text "two rows" then Some wham_two_rows else None.

(** the grid that the two-row table gives *)
Definition pmf_two_rows : grid num :=
  [[PInf; PInf; PInf];
   [PInf; of_int (-2); of_int (-2)];
   [PInf; of_int (-2); of_int (-2)]].

(** a table with two rows at the same distance from the cell at (1, 1) *)
Definition wham_tie : frame :=
  [Row (frac 3 4) (of_int 1) (of_int 7) fzero;
   Row (frac 5 4) (of_int 1) (of_int 8) fzero].

(** a table with a row on the grid point (1, 1), after a row beside it *)
Definition wham_exact : frame :=
  [Row (frac 9 10) (of_int 1) (of_int 7) fzero;
   Row (of_int 1) (of_int 1) (of_int 5) fzero;
   Row (of_int 1) (of_int 1) (of_int 6) fzero].

(** a solver that exits with status 0 and writes nothing *)
Definition solver_idle (cmd : string) (files : gmap string string)
    : Z * gmap string string :=
  (0%Z, files).

(** ** Rounding at work

    A cell at 0.3 with lambda step 5.0.  The rows at -2.2 and at 2.8 are
    both in its window; the row at 2.8 is the nearer one, but both
    differences round to 2.5.  The row at 5.3 is less than 5.0 away from
    the cell, but the difference rounds to 5.0. *)

Definition lambdas_03 (idx : nat * nat) : num * num := (frac 3 10, frac 3 10).

Definition row_left : row := Row (frac (-22) 10) (frac (-22) 10) (of_int 11) fzero.
Definition row_right : row := Row (frac 28 10) (frac 28 10) (of_int 22) fzero.
Definition row_edge : row := Row (frac 53 10) (frac 3 10) (of_int 33) fzero.


(** ** Notions used by the further properties *)


(** a row as [load_wham_pmf] returns it: finite energy, no infinite value *)
Definition loaded_row (r : row) : bool :=
  isfinite (e r) && negb (isinf (x r)) && negb (isinf (y r)) && negb (isinf (pro r)).

(** the runner with another setting of [verbose] *)
Definition with_verbose (b : bool) (self : runner) : runner :=
  Runner b (WHAM_EXEC self) (tmp_folder self) (simulation_folder self)
         (num_iterations self) (cvs self) (whamconfig self) (sample_list self) (pmf self).

(** the runner at another iteration *)
Definition at_iteration (n : nat) (self : runner) : runner :=
  Runner (verbose self) (WHAM_EXEC self) (tmp_folder self) (simulation_folder self)
         n (cvs self) (whamconfig self) (sample_list self) (pmf self).

(** ** Case analysis on the comparisons of mantissas and exponents *)

Ltac cmp_cases :=
  repeat match goal with
  | |- context [(?a ?= ?b)%Z] => destruct (Z.compare_spec a b)
  | |- context [Pos.compare_cont Eq ?a ?b] =>
      change (Pos.compare_cont Eq a b) with (Pos.compare a b);
      destruct (Pos.compare_spec a b)
  end.

(** * Properties *)

(** ** Doubles: no operation of the distance makes a NaN

    The result of rounding a mantissa that is not negative is a zero, a
    finite number or an infinity, with the sign that was asked for. *)

Lemma iter_pos_inv {A : Type} (P : A → Prop) (f : A → A) (p : positive) (a : A) :
  (∀ a, P a → P (f a)) → P a → P (SpecFloat.iter_pos f p a).
Proof.
  intros Hf. revert a. induction p as [p IH|p IH|]; intros a Ha; simpl; auto.
Qed.

Lemma shr_1_nonneg (mrs : shr_record) : (0 ≤ shr_m mrs → 0 ≤ shr_m (shr_1 mrs))%Z.
Proof. destruct mrs as [[|[p|p|]|[p|p|]] r s]; simpl; lia. Qed.

Lemma shr_fexp_nonneg (m e : Z) (l : location) :
  (0 ≤ m → 0 ≤ shr_m (shr_fexp prec emax m e l).1)%Z.
Proof.
  intros Hm. unfold shr_fexp, shr.
  assert (0 ≤ shr_m (shr_record_of_loc m l))%Z as H0 by (destruct l as [|[]]; exact Hm).
  destruct (fexp prec emax (Zdigits2 m + e) - e)%Z as [|p|p]; simpl; try exact H0.
  apply (iter_pos_inv (λ mrs, 0 ≤ shr_m mrs)%Z); [apply shr_1_nonneg | exact H0].
Qed.

Lemma round_nearest_even_nonneg (m : Z) (l : location) :
  (0 ≤ m → 0 ≤ round_nearest_even m l)%Z.
Proof. destruct l as [|[]]; simpl; try destruct (Z.even m); lia. Qed.

Lemma binary_round_aux_sign (s : bool) (m e : Z) (l : location) :
  (0 ≤ m)%Z → has_sign s (binary_round_aux prec emax s m e l) = true.
Proof.
  intros Hm. unfold binary_round_aux.
  pose proof (shr_fexp_nonneg m e l Hm) as H1.
  destruct (shr_fexp prec emax m e l) as [mrs' e']. simpl in H1.
  pose proof (shr_fexp_nonneg _ e' loc_Exact
                (round_nearest_even_nonneg _ (loc_of_shr_record mrs') H1)) as H2.
  destruct (shr_fexp prec emax _ e' loc_Exact) as [mrs'' e'']. simpl in H2.
  destruct (shr_m mrs'') as [|p|p]; [| |lia].
  - destruct s; reflexivity.
  - destruct (e'' <=? emax - prec)%Z; destruct s; reflexivity.
Qed.

Lemma binary_round_sign (s : bool) (m : positive) (e : Z) :
  has_sign s (binary_round prec emax s m e) = true.
Proof.
  unfold binary_round. destruct (shl_align m e _) as [mz ez].
  apply binary_round_aux_sign. lia.
Qed.

Lemma has_sign_not_nan (s : bool) (a : num) : has_sign s a = true → isnan a = false.
Proof. destruct a; simpl; congruence. Qed.

Lemma fmul_self_nonneg (d : num) : isnan d = false → has_sign false (fmul d d) = true.
Proof.
  destruct d as [s|s| |s m e]; simpl; try discriminate; intros _.
  - destruct s; reflexivity.
  - destruct s; reflexivity.
  - unfold fmul, SFmul. replace (xorb s s) with false by (destruct s; reflexivity).
    apply binary_round_aux_sign. lia.
Qed.

Lemma fadd_nonneg (a b : num) :
  has_sign false a = true → has_sign false b = true → has_sign false (fadd a b) = true.
Proof.
  destruct a as [[]|[]| |[] ma ea], b as [[]|[]| |[] mb eb]; simpl; try discriminate;
    intros _ _; try reflexivity.
  unfold fadd, SFadd. simpl. apply binary_round_sign.
Qed.

Lemma fsqrt_nonneg (a : num) : has_sign false a = true → has_sign false (fsqrt a) = true.
Proof.
  destruct a as [[]|[]| |[] m e]; simpl; try discriminate; intros _; try reflexivity.
  unfold fsqrt, SFsqrt.
  destruct (SFsqrt_core_binary prec emax (Z.pos m) e) as [[mz ez] lz] eqn:E.
  apply binary_round_aux_sign.
  unfold SFsqrt_core_binary in E.
  destruct (Z.sqrtrem _) as [q r] eqn:Hq in E. injection E as <- _ _.
  change q with (q, r).1. rewrite <- Hq, Z.sqrtrem_sqrt. apply Z.sqrt_nonneg.
Qed.

Lemma linalg_norm_nonneg (dx dy : num) :
  isnan dx = false → isnan dy = false → has_sign false (linalg_norm dx dy) = true.
Proof.
  intros Hx Hy. apply fsqrt_nonneg, fadd_nonneg; apply fmul_self_nonneg; assumption.
Qed.

Lemma fsub_finite (a b : num) :
  isfinite a = true → isfinite b = true → isnan (fsub a b) = false.
Proof.
  destruct a as [sa|sa| |sa ma ea], b as [sb|sb| |sb mb eb]; simpl; try discriminate;
    intros _ _; try reflexivity.
  - destruct sa, sb; reflexivity.
  - unfold fsub, SFsub, binary_normalize.
    destruct (_ - _)%Z as [|p|p]; [reflexivity | |];
      eapply has_sign_not_nan, binary_round_sign.
Qed.


Lemma fltb_from_above (v s : num) : isfinite v = false → fltb (fabs v) s = false.
Proof.
  destruct v as [sv|sv| |sv m e]; try discriminate; intros _.
  - destruct s as [?|[]| |? ? ?]; reflexivity.
  - reflexivity.
Qed.

Lemma fsub_not_finite (a c : num) :
  isfinite a && isfinite c = false → isfinite (fsub a c) = false.
Proof.
  destruct a as [sa|sa| |sa ma ea], c as [sc|sc| |sc mc ec]; simpl; try discriminate;
    intros _; try reflexivity; destruct sa, sc; reflexivity.
Qed.

(** a difference that is strictly below a bound in absolute value is the
    difference of two finite numbers *)
Lemma near_finite (a c s : num) :
  fltb (fabs (fsub a c)) s = true → isfinite a = true ∧ isfinite c = true.
Proof.
  intros H. apply andb_true_iff. destruct (isfinite a && isfinite c) eqn:E; [reflexivity|].
  rewrite fltb_from_above in H by (apply fsub_not_finite, E). discriminate.
Qed.

(** ** Doubles: the order of the numbers that are not NaN *)

Lemma fleb_refl (a : num) : isnan a = false → fleb a a = true.
Proof.
  destruct a as [[]|[]| |[] m e]; simpl; try discriminate; intros _; try reflexivity;
    unfold fleb, SFleb, SFcompare; cmp_cases; simpl; try reflexivity; lia.
Qed.

Lemma feqb_refl (a : num) : isnan a = false → feqb a a = true.
Proof.
  destruct a as [[]|[]| |[] m e]; simpl; try discriminate; intros _; try reflexivity;
    unfold feqb, SFeqb, SFcompare; cmp_cases; simpl; try reflexivity; lia.
Qed.

Lemma fleb_trans (a b c : num) : fleb a b = true → fleb b c = true → fleb a c = true.
Proof.
  unfold fleb, SFleb, SFcompare.
  destruct a as [[]|[]| |[] ma ea], b as [[]|[]| |[] mb eb], c as [[]|[]| |[] mc ec];
    try (intros; reflexivity); try (intros; discriminate);
    cmp_cases; simpl; intros; try reflexivity; try discriminate; subst; lia.
Qed.

Lemma fltb_false_fleb (a b : num) :
  isnan a = false → isnan b = false → fltb a b = false → fleb b a = true.
Proof.
  unfold fltb, SFltb, fleb, SFleb, SFcompare.
  destruct a as [[]|[]| |[] ma ea], b as [[]|[]| |[] mb eb]; simpl;
    try (intros; reflexivity); try (intros; discriminate);
    cmp_cases; simpl; intros; try reflexivity; try discriminate; subst; lia.
Qed.

Lemma fltb_fleb (a b : num) : fltb a b = true → fleb a b = true.
Proof.
  unfold fltb, SFltb, fleb, SFleb. destruct (SFcompare a b) as [[]|]; congruence.
Qed.

Lemma fleb_not_feqb (a b : num) : fleb a b = true → feqb b a = false → fltb a b = true.
Proof.
  unfold fltb, SFltb, fleb, SFleb, feqb, SFeqb, SFcompare.
  destruct a as [[]|[]| |[] ma ea], b as [[]|[]| |[] mb eb]; simpl;
    try (intros; reflexivity); try (intros; discriminate);
    cmp_cases; simpl; intros; try reflexivity; try discriminate; subst; lia.
Qed.

Lemma feqb_fleb (a b : num) : feqb a b = true → fleb a b = true ∧ fleb b a = true.
Proof.
  unfold fleb, SFleb, feqb, SFeqb, SFcompare.
  destruct a as [[]|[]| |[] ma ea], b as [[]|[]| |[] mb eb]; simpl;
    try (intros; split; reflexivity); try (intros; discriminate);
    cmp_cases; simpl; intros; try (split; reflexivity); try discriminate; subst; lia.
Qed.

Lemma fleb_antisym (a b : num) : fleb a b = true → fleb b a = true → feqb a b = true.
Proof.
  unfold fleb, SFleb, feqb, SFeqb, SFcompare.
  destruct a as [[]|[]| |[] ma ea], b as [[]|[]| |[] mb eb]; simpl;
    try (intros; reflexivity); try (intros; discriminate);
    cmp_cases; simpl; intros; try reflexivity; try discriminate; subst; lia.
Qed.

(** numbers that compare equal are the same number, or two zeros *)
Lemma feqb_eq (a b : num) :
  feqb a b = true → a = b ∨ (∃ s s', a = S754_zero s ∧ b = S754_zero s').
Proof.
  unfold feqb, SFeqb, SFcompare.
  destruct a as [[]|[]| |[] ma ea], b as [[]|[]| |[] mb eb]; simpl;
    try (intros; discriminate); try (left; reflexivity); try (right; eauto; fail);
    cmp_cases; simpl; intros; try discriminate; subst; left; reflexivity.
Qed.

(** ** The window *)

Section WindowFacts.

Variables step_x step_y : num.

Lemma window_iff (lambdax lambday : num) (r : row) :
  window step_x step_y lambdax lambday r = true ↔
  fltb (fabs (fsub (x r) lambdax)) step_x = true
  ∧ fltb (fabs (fsub (y r) lambday)) step_y = true.
Proof. unfold window. apply andb_true_iff. Qed.

Lemma In_reduced_rows (wham_pmf : frame) (lambdax lambday : num) (r : row) :
  In r (reduced_rows step_x step_y wham_pmf lambdax lambday) ↔
  In r wham_pmf
  ∧ fltb (fabs (fsub (x r) lambdax)) step_x = true
  ∧ fltb (fabs (fsub (y r) lambday)) step_y = true.
Proof.
  unfold reduced_rows. rewrite filter_In, window_iff. reflexivity.
Qed.

(** the rows of a window and the centre of the window are finite, and the
    distance of the rows is a number that is not negative *)
Lemma window_finite (lambdax lambday : num) (r : row) :
  window step_x step_y lambdax lambday r = true →
  isfinite (x r) = true ∧ isfinite (y r) = true
  ∧ isfinite lambdax = true ∧ isfinite lambday = true.
Proof.
  intros H. apply window_iff in H. destruct H as [Hx Hy].
  apply near_finite in Hx, Hy. tauto.
Qed.

Lemma window_dist (lambdax lambday : num) (r : row) :
  window step_x step_y lambdax lambday r = true →
  has_sign false (dist_of lambdax lambday r) = true.
Proof.
  intros H. apply window_finite in H. destruct H as (Hx & Hy & Hlx & Hly).
  apply linalg_norm_nonneg; apply fsub_finite; assumption.
Qed.

Lemma reduced_window (wham_pmf : frame) (lambdax lambday : num) (r : row) :
  In r (reduced_rows step_x step_y wham_pmf lambdax lambday) →
  window step_x step_y lambdax lambday r = true.
Proof. intros H. apply filter_In in H. tauto. Qed.

Lemma reduced_finite (wham_pmf : frame) (lambdax lambday : num) (r : row) :
  In r (reduced_rows step_x step_y wham_pmf lambdax lambday) →
  isfinite (x r) = true ∧ isfinite (y r) = true.
Proof.
  intros H. apply reduced_window, window_finite in H. tauto.
Qed.

Lemma reduced_dist (wham_pmf : frame) (lambdax lambday : num) (r : row) :
  In r (reduced_rows step_x step_y wham_pmf lambdax lambday) →
  has_sign false (dist_of lambdax lambday r) = true.
Proof. intros H. eapply window_dist, reduced_window, H. Qed.

End WindowFacts.

Lemma isfinite_not_nan (a : num) : isfinite a = true → isnan a = false.
Proof. destruct a; simpl; congruence. Qed.

(** rows with equal coordinates are at the same distance *)
Lemma same_point_same_square (l a b : num) :
  feqb a b = true → fmul (fsub l a) (fsub l a) = fmul (fsub l b) (fsub l b).
Proof.
  intros H. apply feqb_eq in H. destruct H as [->|(s & s' & -> & ->)]; [reflexivity|].
  destruct l as [[]|[]| |[] m e], s, s'; reflexivity.
Qed.

Lemma same_point_same_dist (lambdax lambday : num) (r r' : row) :
  feqb (x r) (x r') = true → feqb (y r) (y r') = true →
  dist_of lambdax lambday r = dist_of lambdax lambday r'.
Proof.
  intros Hx Hy. unfold dist_of, linalg_norm.
  rewrite (same_point_same_square lambdax _ _ Hx), (same_point_same_square lambday _ _ Hy).
  reflexivity.
Qed.

(** ** Arrays: reading a cell after writing one *)

Lemma rectangular_has_shape {A : Type} (a : grid A) :
  rectangular a → has_shape a (shape a).1 (shape a).2.
Proof. intros H. split; [reflexivity | exact H]. Qed.

Lemma setitem_in_range {A : Type} (a : grid A) (n m ix iy : nat) (v : A) :
  has_shape a n m → (ix < n)%nat → (iy < m)%nat →
  ∃ a', setitem a ix iy v = Some a' ∧ has_shape a' n m
        ∧ getitem a' ix iy = Some v
        ∧ ∀ jx jy, (jx, jy) ≠ (ix, iy) → getitem a' jx jy = getitem a jx jy.
Proof.
  intros [Hn Hm] Hx Hy. unfold setitem.
  destruct (a !! ix) as [r|] eqn:Hr.
  2:{ apply lookup_ge_None in Hr. lia. }
  assert (length r = m) as Hlen.
  { rewrite Forall_forall in Hm. apply Hm. eapply list_elem_of_lookup_2, Hr. }
  destruct (decide (iy < length r)%nat) as [_|]; [|lia].
  eexists. split; [reflexivity|]. split; [|split].
  - split; [rewrite length_insert; exact Hn|].
    apply Forall_insert; [exact Hm|]. rewrite length_insert. exact Hlen.
  - unfold getitem. rewrite list_lookup_insert_eq by lia. simpl.
    apply list_lookup_insert_eq. lia.
  - intros jx jy Hne. unfold getitem.
    destruct (decide (jx = ix)) as [->|Hjx].
    + rewrite list_lookup_insert_eq by lia. rewrite Hr. simpl.
      apply list_lookup_insert_ne. congruence.
    + rewrite list_lookup_insert_ne by congruence. reflexivity.
Qed.

(** ** Loops *)

Lemma for_each_seq_inv {S : Type} (body : nat → S → outcome unit * S)
    (Inv : nat → S → Prop) (n a : nat) (s : S) :
  Inv a s →
  (∀ i t, (a ≤ i < a + n)%nat → Inv i t → ∃ t', body i t = (Ret tt, t') ∧ Inv (Datatypes.S i) t') →
  ∃ s', for_each (seq a n) body s = (Ret tt, s') ∧ Inv (a + n)%nat s'.
Proof.
  revert a s. induction n as [|n IH]; intros a s H0 Hstep; simpl.
  - exists s. split; [reflexivity|]. replace (a + 0)%nat with a by lia. exact H0.
  - destruct (Hstep a s) as (t' & -> & Ht'); [lia | exact H0 |].
    destruct (IH (Datatypes.S a) t') as (s' & Hs' & Hinv); [exact Ht' | |].
    + intros i t Hi. apply Hstep. lia.
    + exists s'. split; [exact Hs'|]. replace (a + Datatypes.S n)%nat with (Datatypes.S a + n)%nat by lia.
      exact Hinv.
Qed.

(** ** The smallest entry of a column without NaN *)

Lemma fold_min_skipna (l : list num) (a : num) :
  isnan a = false → Forall (λ d, isnan d = false) l →
  isnan (fold_left min_skipna l a) = false
  ∧ In (fold_left min_skipna l a) (a :: l)
  ∧ ∀ d, In d (a :: l) → fleb (fold_left min_skipna l a) d = true.
Proof.
  revert a. induction l as [|d l IH]; intros a Ha Hl; simpl.
  - split; [exact Ha|]. split; [now left|]. intros ? [<-|[]]. apply fleb_refl, Ha.
  - apply Forall_cons in Hl. destruct Hl as [Hd Hl].
    assert (min_skipna a d = if fltb d a then d else a) as ->
      by (unfold min_skipna; rewrite Hd, Ha; reflexivity).
    destruct (fltb d a) eqn:E.
    + destruct (IH d Hd Hl) as (Hn & Hin & Hle). split; [exact Hn|]. split.
      * destruct Hin as [Hin|Hin]; [right; now left | right; now right].
      * intros q [<-|[<-|Hq]].
        -- apply fleb_trans with d; [apply Hle; now left | apply fltb_fleb, E].
        -- apply Hle. now left.
        -- apply Hle. now right.
    + destruct (IH a Ha Hl) as (Hn & Hin & Hle). split; [exact Hn|]. split.
      * destruct Hin as [Hin|Hin]; [now left | right; now right].
      * intros q [<-|[<-|Hq]].
        -- apply Hle. now left.
        -- apply fleb_trans with a; [apply Hle; now left|].
           apply fltb_false_fleb; assumption.
        -- apply Hle. now right.
Qed.

Lemma series_min_least (l : list num) :
  l ≠ [] → Forall (λ d, isnan d = false) l →
  isnan (series_min l) = false
  ∧ In (series_min l) l ∧ ∀ d, In d l → fleb (series_min l) d = true.
Proof.
  destruct l as [|a l]; [congruence|]. intros _ Hl.
  apply Forall_cons in Hl. destruct Hl as [Ha Hl].
  unfold series_min. cbn [fold_left].
  assert (min_skipna NaN a = a) as -> by (unfold min_skipna; rewrite Ha; reflexivity).
  apply fold_min_skipna; assumption.
Qed.

(** ** Selections *)

Lemma iloc0_map_filter_map {A B C : Type} (f : B → C) (p : B → bool) (g : A → B)
    (l : list A) :
  iloc0 (map f (List.filter p (map g l))) =
  match find (λ a, p (g a)) l with
  | Some a => Ret (f (g a))
  | None => Raise IndexError
  end.
Proof.
  induction l as [|a l IH]; simpl; [reflexivity|].
  destruct (p (g a)); simpl; [reflexivity | exact IH].
Qed.

Lemma find_is_Some {A : Type} (p : A → bool) (l : list A) (a : A) :
  In a l → p a = true → ∃ b, find p l = Some b ∧ In b l ∧ p b = true.
Proof.
  intros Hin Hp. destruct (find p l) as [b|] eqn:E.
  - exists b. apply find_some in E. tauto.
  - eapply find_none in E; [|exact Hin]. congruence.
Qed.

(** two searches of one list that accept each other's result return the
    same entry *)
Lemma find_same_entry {A : Type} (p q : A → bool) (l : list A) (a b : A) :
  find p l = Some a → find q l = Some b → p b = true → q a = true → a = b.
Proof.
  induction l as [|c l IH]; simpl; [discriminate|].
  destruct (p c) eqn:Hp, (q c) eqn:Hq; intros Ha Hb Hpb Hqa.
  - congruence.
  - injection Ha as <-. congruence.
  - injection Hb as <-. congruence.
  - auto.
Qed.

(** ** The value written to one cell *)

Section CellValue.

Variable get_lambdas_for_index : nat * nat → num * num.
Variables step_x step_y : num.

Let reduced_at := reduced_rows step_x step_y.
Let value_at := cell_value get_lambdas_for_index step_x step_y.

Lemma cell_value_unmatched (wham_pmf : frame) (ix iy : nat) (lambdax lambday : num) :
  get_lambdas_for_index (ix, iy) = (lambdax, lambday) →
  reduced_at wham_pmf lambdax lambday = [] →
  value_at wham_pmf ix iy = Ret PInf.
Proof.
  intros Hl Hred. unfold value_at, cell_value.
  rewrite Hl. fold reduced_at. rewrite Hred. reflexivity.
Qed.

Lemma cell_value_nearest (wham_pmf : frame) (ix iy : nat) (lambdax lambday : num) :
  get_lambdas_for_index (ix, iy) = (lambdax, lambday) →
  reduced_at wham_pmf lambdax lambday ≠ [] →
  let reduced := reduced_at wham_pmf lambdax lambday in
  let dist := dist_of lambdax lambday in
  ∃ r0 r1,
    find (λ r, feqb (dist r) (series_min (map dist reduced))) reduced = Some r0
    ∧ find (λ r, feqb (x r) (x r0) && feqb (y r) (y r0)) reduced = Some r1
    ∧ value_at wham_pmf ix iy = Ret (e r1)
    ∧ r1 = r0
    ∧ In r1 reduced
    ∧ ∀ r, In r reduced → fleb (dist r1) (dist r) = true.
Proof.
  intros Hl Hne reduced dist.
  destruct (series_min_least (map dist reduced)) as (Hn & Hin & Hle).
  { intros Hnil. apply map_eq_nil in Hnil. exact (Hne Hnil). }
  { apply Forall_forall. intros d Hd. apply list_elem_of_In, in_map_iff in Hd.
    destruct Hd as (r & <- & Hr).
    eapply has_sign_not_nan, (reduced_dist step_x step_y), Hr. }
  apply in_map_iff in Hin. destruct Hin as (rm & Hrm & Hrm_in).
  (* the first row at minimum distance *)
  destruct (find_is_Some (λ r, feqb (dist r) (series_min (map dist reduced))) reduced rm)
    as (r0 & Hf0 & Hin0 & Hp0); [exact Hrm_in | |].
  { cbv beta. rewrite Hrm. apply feqb_refl, Hn. }
  assert (feqb (x r0) (x r0) && feqb (y r0) (y r0) = true) as Hself.
  { destruct (reduced_finite step_x step_y _ _ _ _ Hin0) as [Hx0 Hy0].
    apply andb_true_iff. split; apply feqb_refl, isfinite_not_nan; assumption. }
  (* the first row with the coordinates of that row *)
  destruct (find_is_Some (λ r, feqb (x r) (x r0) && feqb (y r) (y r0)) reduced r0)
    as (r1 & Hf1 & Hin1 & Hp1); [exact Hin0 | exact Hself |].
  assert (dist r1 = dist r0) as Hd10.
  { apply andb_true_iff in Hp1. destruct Hp1 as [Ex Ey].
    apply same_point_same_dist; assumption. }
  exists r0, r1. split; [exact Hf0|]. split; [exact Hf1|]. split; [|split; [|split]].
  - unfold value_at, cell_value. rewrite Hl.
    fold reduced_at. fold reduced.
    destruct (length reduced =? 0)%nat eqn:Hlen.
    { apply Nat.eqb_eq, length_zero_iff_nil in Hlen. contradiction. }
    cbv zeta. rewrite map_map. fold dist.
    rewrite !iloc0_map_filter_map. cbn [fst snd].
    change (map (λ r, dist r) reduced) with (map dist reduced). rewrite Hf0.
    rewrite iloc0_map_filter_map. cbn [fst snd]. rewrite Hf1. reflexivity.
  - symmetry. eapply find_same_entry; [exact Hf0 | exact Hf1 | | exact Hself].
    cbv beta. rewrite Hd10. exact Hp0.
  - exact Hin1.
  - intros r Hr. rewrite Hd10.
    apply fleb_trans with (series_min (map dist reduced)).
    + exact (proj1 (feqb_fleb _ _ Hp0)).
    + apply Hle, in_map, Hr.
Qed.

End CellValue.

(** ** The scan over the grid *)

Section Scan.

Variable get_lambdas_for_index : nat * nat → num * num.
Variables step_x step_y : num.

Let value_at := cell_value get_lambdas_for_index step_x step_y.
Let projected_at := projected get_lambdas_for_index step_x step_y.

Lemma cell_value_total (wham_pmf : frame) (ix iy : nat) :
  ∃ v, value_at wham_pmf ix iy = Ret v.
Proof.
  destruct (get_lambdas_for_index (ix, iy)) as [lambdax lambday] eqn:Hl.
  destruct (reduced_rows step_x step_y wham_pmf lambdax lambday) eqn:Hred.
  - exists PInf. eapply cell_value_unmatched; eauto.
  - destruct (cell_value_nearest get_lambdas_for_index step_x step_y
                wham_pmf ix iy lambdax lambday Hl) as (r0 & r1 & _ & _ & Hv & _).
    + rewrite Hred. discriminate.
    + exists (e r1). exact Hv.
Qed.

Lemma update_cell_step (wham_pmf : frame) (n m ix iy : nat) (pmf : grid num) :
  has_shape pmf n m → (ix < n)%nat → (iy < m)%nat →
  ∃ pmf', update_cell get_lambdas_for_index step_x step_y wham_pmf ix iy pmf = (Ret tt, pmf')
          ∧ has_shape pmf' n m
          ∧ projected_at wham_pmf pmf' ix iy
          ∧ ∀ jx jy, (jx, jy) ≠ (ix, iy) →
              projected_at wham_pmf pmf jx jy → projected_at wham_pmf pmf' jx jy.
Proof.
  intros Hs Hx Hy. unfold update_cell.
  destruct (cell_value_total wham_pmf ix iy) as (v & Hv). fold value_at. rewrite Hv.
  destruct (setitem_in_range pmf n m ix iy v Hs Hx Hy) as (pmf' & -> & Hs' & Hget & Hothers).
  exists pmf'. split; [reflexivity|]. split; [exact Hs'|]. split.
  - exists v. auto.
  - intros jx jy Hne (w & Hw & Hg). exists w. split; [exact Hw|].
    rewrite Hothers by exact Hne. exact Hg.
Qed.

Lemma update_pmf_cells (wham_pmf : frame) (pmf : grid num) :
  rectangular pmf →
  ∃ pmf', update_pmf get_lambdas_for_index step_x step_y wham_pmf pmf = (Ret tt, pmf')
          ∧ has_shape pmf' (shape pmf).1 (shape pmf).2
          ∧ ∀ ix iy, (ix < (shape pmf).1)%nat → (iy < (shape pmf).2)%nat →
              projected_at wham_pmf pmf' ix iy.
Proof.
  intros Hrect. apply rectangular_has_shape in Hrect.
  unfold update_pmf. destruct (shape pmf) as [n m]. simpl in *.
  destruct (for_each_seq_inv
    (λ ix pmf, for_each (seq 0 m)
       (λ iy pmf, update_cell get_lambdas_for_index step_x step_y wham_pmf ix iy pmf) pmf)
    (λ k g, has_shape g n m
            ∧ ∀ jx jy, (jx < k)%nat → (jy < m)%nat → projected_at wham_pmf g jx jy)
    n 0 pmf) as (pmf' & Hrun & Hs' & Hall).
  - split; [exact Hrect|]. intros jx jy Hjx. lia.
  - intros i g Hi [Hs Hdone].
    destruct (for_each_seq_inv
      (λ iy pmf, update_cell get_lambdas_for_index step_x step_y wham_pmf i iy pmf)
      (λ k g, has_shape g n m
              ∧ (∀ jx jy, (jx < i)%nat → (jy < m)%nat → projected_at wham_pmf g jx jy)
              ∧ ∀ jy, (jy < k)%nat → projected_at wham_pmf g i jy)
      m 0 g) as (g' & Hrow & Hs' & Hprev & Hcur).
    + split; [exact Hs|]. split; [exact Hdone|]. intros jy Hjy. lia.
    + intros k h Hk (Hsh & Hprev & Hcur).
      destruct (update_cell_step wham_pmf n m i k h Hsh) as (h' & Hh' & Hsh' & Hnew & Hkeep);
        [lia | lia |].
      exists h'. split; [exact Hh'|]. split; [exact Hsh'|]. split.
      * intros jx jy Hjx Hjy. apply Hkeep; [|apply Hprev; assumption].
        intros [= -> ->]. lia.
      * intros jy Hjy. destruct (decide (jy = k)) as [->|Hne]; [exact Hnew|].
        apply Hkeep; [congruence|]. apply Hcur. lia.
    + exists g'. split; [exact Hrow|]. split; [exact Hs'|].
      intros jx jy Hjx Hjy. destruct (decide (jx = i)) as [->|Hne].
      * apply Hcur. simpl. exact Hjy.
      * apply Hprev; [lia | exact Hjy].
  - exists pmf'. split; [exact Hrun|]. split; [exact Hs'|].
    intros ix iy Hx Hy. apply Hall; [simpl; exact Hx | exact Hy].
Qed.

End Scan.

(** * The grid projector: claims *)

Example update_pmf_two_rows :
  update_pmf lambdas_half (frac 1 2) (frac 1 2) wham_two_rows pmf_3x3 =
  (Ret tt, pmf_two_rows).
Proof. vm_compute. reflexivity. Qed.

(** C2, as stated, fails.  The row at [x = 5.3] is less than the lambda
    step [5.0] away from the cell at [0.3], on both axes, yet it is not a
    candidate: the code compares the rounded difference, and
    [5.3 - 0.3 == 5.0]. *)
Lemma window_excludes_row_within_step :
  Qabs (exact (x row_edge) - exact (frac 3 10)) < exact (of_int 5)
  ∧ Qabs (exact (y row_edge) - exact (frac 3 10)) < exact (of_int 5)
  ∧ fsub (x row_edge) (frac 3 10) = of_int 5
  ∧ reduced_rows (of_int 5) (of_int 5) [row_edge] (frac 3 10) (frac 3 10) = [].
Proof. vm_compute. repeat split. Qed.

(** C2, as amended.  A row of the solver output is a candidate for the cell
    with coordinate [(lambdax, lambday)] exactly when it is a row of the
    table for which the double [x - lambdax] is, in absolute value,
    strictly below the lambda step of the x axis, and the double
    [y - lambday] strictly below the lambda step of the y axis: an open
    rectangle on the rounded differences, each axis on its own, and no
    other test.  The coordinates of a candidate are finite. *)
Theorem candidate_iff_open_rectangle (step_x step_y : num) (wham_pmf : frame)
    (lambdax lambday : num) (r : row) :
  (In r (reduced_rows step_x step_y wham_pmf lambdax lambday) ↔
   In r wham_pmf
   ∧ fltb (fabs (fsub (x r) lambdax)) step_x = true
   ∧ fltb (fabs (fsub (y r) lambday)) step_y = true)
  ∧ (In r (reduced_rows step_x step_y wham_pmf lambdax lambday) →
     isfinite (x r) = true ∧ isfinite (y r) = true).
Proof.
  split; [apply In_reduced_rows|]. intros H.
  exact (reduced_finite step_x step_y wham_pmf lambdax lambday r H).
Qed.

(** the first row of the two-row table is a candidate for the cell at
    (1.0, 1.0) with lambda steps 0.5 *)
Lemma candidate_iff_open_rectangle_witness :
  let r := Row (frac 9 10) (frac 9 10) (of_int (-2)) (frac 1 2) in
  (In r (reduced_rows (frac 1 2) (frac 1 2) wham_two_rows (of_int 1) (of_int 1)) ↔
   In r wham_two_rows
   ∧ fltb (fabs (fsub (x r) (of_int 1))) (frac 1 2) = true
   ∧ fltb (fabs (fsub (y r) (of_int 1))) (frac 1 2) = true)
  ∧ (In r (reduced_rows (frac 1 2) (frac 1 2) wham_two_rows (of_int 1) (of_int 1)) →
     isfinite (x r) = true ∧ isfinite (y r) = true).
Proof.
  intros r.
  exact (candidate_iff_open_rectangle (frac 1 2) (frac 1 2) wham_two_rows
           (of_int 1) (of_int 1) r).
Defined.

(** C1, as stated, fails.  For the cell at [(0.3, 0.3)] with lambda step
    [5.0], the rows at [(-2.2, -2.2)] and [(2.8, 2.8)] are both candidates.
    The second is the nearer one, but the differences round to [2.5] and
    [-2.5]: the two computed distances are equal, and the cell gets the
    energy of the first row. *)
Lemma update_pmf_keeps_first_of_rounded_tie :
  reduced_rows (of_int 5) (of_int 5) [row_left; row_right] (frac 3 10) (frac 3 10)
  = [row_left; row_right]
  ∧ exact_sqdist (frac 3 10) (frac 3 10) row_right
    < exact_sqdist (frac 3 10) (frac 3 10) row_left
  ∧ dist_of (frac 3 10) (frac 3 10) row_left = dist_of (frac 3 10) (frac 3 10) row_right
  ∧ update_pmf lambdas_03 (of_int 5) (of_int 5) [row_left; row_right] [[fzero]]
    = (Ret tt, [[e row_left]])
  ∧ e row_left ≠ e row_right.
Proof. vm_compute. repeat split. discriminate. Qed.

(** C1, as amended.  When some row of the solver output lies in the window
    of a cell of the PMF grid, [update_pmf] returns normally and the cell
    holds the energy of a row [r1] of the window whose distance to the
    cell's coordinate, as the code computes it in double precision, is at
    most that of every row of the window; [r1] is the first row of the
    window that has the [(x, y)] of [r0], the first row of the window at
    the least computed distance. *)
Theorem update_pmf_assigns_nearest (get_lambdas_for_index : nat * nat → num * num)
    (step_x step_y : num) (wham_pmf : frame) (pmf : grid num) (ix iy : nat)
    (lambdax lambday : num) (r : row) :
  rectangular pmf → (ix < (shape pmf).1)%nat → (iy < (shape pmf).2)%nat →
  get_lambdas_for_index (ix, iy) = (lambdax, lambday) →
  In r wham_pmf → window step_x step_y lambdax lambday r = true →
  let reduced := reduced_rows step_x step_y wham_pmf lambdax lambday in
  let dist := dist_of lambdax lambday in
  ∃ pmf' r0 r1,
    update_pmf get_lambdas_for_index step_x step_y wham_pmf pmf = (Ret tt, pmf')
    ∧ getitem pmf' ix iy = Some (e r1)
    ∧ find (λ r, feqb (dist r) (series_min (map dist reduced))) reduced = Some r0
    ∧ find (λ r, feqb (x r) (x r0) && feqb (y r) (y r0)) reduced = Some r1
    ∧ In r1 reduced
    ∧ ∀ r', In r' reduced → fleb (dist r1) (dist r') = true.
Proof.
  intros Hrect Hx Hy Hl Hin Hw reduced dist.
  assert (In r reduced) as Hr by (apply filter_In; auto).
  destruct (update_pmf_cells get_lambdas_for_index step_x step_y wham_pmf pmf Hrect)
    as (pmf' & Hrun & _ & Hcells).
  destruct (Hcells ix iy Hx Hy) as (v & Hv & Hget).
  destruct (cell_value_nearest get_lambdas_for_index step_x step_y wham_pmf ix iy
              lambdax lambday Hl) as (r0 & r1 & Hf0 & Hf1 & Hv1 & _ & Hin1 & Hmin).
  { intros Hnil. fold reduced in Hr. unfold reduced in Hr. rewrite Hnil in Hr. exact Hr. }
  exists pmf', r0, r1.
  split; [exact Hrun|]. split; [congruence|]. split; [exact Hf0|]. split; [exact Hf1|].
  split; [exact Hin1 | exact Hmin].
Qed.

Lemma update_pmf_assigns_nearest_witness :
  ∃ pmf' r0 r1,
    update_pmf lambdas_half (frac 1 2) (frac 1 2) wham_two_rows pmf_3x3 = (Ret tt, pmf')
    ∧ getitem pmf' 2 2 = Some (e r1)
    ∧ find (λ r, feqb (dist_of (of_int 1) (of_int 1) r)
                   (series_min (map (dist_of (of_int 1) (of_int 1))
                      (reduced_rows (frac 1 2) (frac 1 2) wham_two_rows
                         (of_int 1) (of_int 1)))))
        (reduced_rows (frac 1 2) (frac 1 2) wham_two_rows (of_int 1) (of_int 1)) = Some r0
    ∧ find (λ r, feqb (x r) (x r0) && feqb (y r) (y r0))
        (reduced_rows (frac 1 2) (frac 1 2) wham_two_rows (of_int 1) (of_int 1)) = Some r1
    ∧ In r1 (reduced_rows (frac 1 2) (frac 1 2) wham_two_rows (of_int 1) (of_int 1))
    ∧ ∀ r', In r' (reduced_rows (frac 1 2) (frac 1 2) wham_two_rows (of_int 1) (of_int 1)) →
        fleb (dist_of (of_int 1) (of_int 1) r1) (dist_of (of_int 1) (of_int 1) r') = true.
Proof.
  apply (update_pmf_assigns_nearest lambdas_half (frac 1 2) (frac 1 2) wham_two_rows pmf_3x3
           2 2 (of_int 1) (of_int 1)
           (Row (frac 14 10) (frac 14 10) (of_int 10) (frac 1 2))).
  - repeat constructor.
  - simpl. lia.
  - simpl. lia.
  - vm_compute. reflexivity.
  - simpl. auto.
  - vm_compute. reflexivity.
Defined.

(** the cell at (1.0, 1.0) has both rows of the table in its window and
    gets the energy of the nearer one *)
Example update_pmf_two_candidates :
  reduced_rows (frac 1 2) (frac 1 2) wham_two_rows (of_int 1) (of_int 1) = wham_two_rows
  ∧ getitem (update_pmf lambdas_half (frac 1 2) (frac 1 2) wham_two_rows pmf_3x3).2 2 2
    = Some (of_int (-2)).
Proof. vm_compute. split; reflexivity. Qed.

(** C3.  When no row of the solver output lies in the window of a cell of
    the PMF grid, [update_pmf] sets the cell to plus-infinity; it raises
    nothing, and every cell of the grid, before and after this one in the
    scan, holds the value computed for it. *)
Theorem update_pmf_unmatched_is_inf (get_lambdas_for_index : nat * nat → num * num)
    (step_x step_y : num) (wham_pmf : frame) (pmf : grid num) (ix iy : nat)
    (lambdax lambday : num) :
  rectangular pmf → (ix < (shape pmf).1)%nat → (iy < (shape pmf).2)%nat →
  get_lambdas_for_index (ix, iy) = (lambdax, lambday) →
  (∀ r, In r wham_pmf →
     ¬ (fltb (fabs (fsub (x r) lambdax)) step_x = true
        ∧ fltb (fabs (fsub (y r) lambday)) step_y = true)) →
  ∃ pmf',
    update_pmf get_lambdas_for_index step_x step_y wham_pmf pmf = (Ret tt, pmf')
    ∧ getitem pmf' ix iy = Some PInf
    ∧ ∀ jx jy, (jx < (shape pmf).1)%nat → (jy < (shape pmf).2)%nat →
        ∃ v, cell_value get_lambdas_for_index step_x step_y wham_pmf jx jy = Ret v
             ∧ getitem pmf' jx jy = Some v.
Proof.
  intros Hrect Hx Hy Hl Hnone.
  destruct (update_pmf_cells get_lambdas_for_index step_x step_y wham_pmf pmf Hrect)
    as (pmf' & Hrun & _ & Hcells).
  exists pmf'. split; [exact Hrun|]. split; [|exact Hcells].
  destruct (Hcells ix iy Hx Hy) as (v & Hv & Hget).
  rewrite (cell_value_unmatched get_lambdas_for_index step_x step_y wham_pmf ix iy
             lambdax lambday Hl) in Hv.
  - congruence.
  - destruct (reduced_rows step_x step_y wham_pmf lambdax lambday) as [|r l] eqn:Hred;
      [reflexivity|]. exfalso.
    assert (In r (reduced_rows step_x step_y wham_pmf lambdax lambday)) as Hr
      by (rewrite Hred; now left).
    apply In_reduced_rows in Hr. destruct Hr as (Hin & Hw).
    exact (Hnone r Hin Hw).
Qed.

Lemma update_pmf_unmatched_is_inf_witness :
  ∃ pmf',
    update_pmf lambdas_half (frac 1 2) (frac 1 2) wham_two_rows pmf_3x3 = (Ret tt, pmf')
    ∧ getitem pmf' 0 1 = Some PInf
    ∧ ∀ jx jy, (jx < 3)%nat → (jy < 3)%nat →
        ∃ v, cell_value lambdas_half (frac 1 2) (frac 1 2) wham_two_rows jx jy = Ret v
             ∧ getitem pmf' jx jy = Some v.
Proof.
  apply (update_pmf_unmatched_is_inf lambdas_half (frac 1 2) (frac 1 2) wham_two_rows pmf_3x3
           0 1 fzero (frac 1 2)).
  - repeat constructor.
  - simpl. lia.
  - simpl. lia.
  - vm_compute. reflexivity.
  - intros r [<-|[<-|[]]] [H _]; vm_compute in H; discriminate.
Defined.

(** * The boundary calculator *)

Lemma nonzero_in_row_spec (ix k : nat) (r : list Z) (jx jy : nat) :
  In (jx, jy) (nonzero_in_row ix k r) ↔
  jx = ix ∧ (k ≤ jy)%nat ∧ ∃ c, r !! (jy - k)%nat = Some c ∧ c ≠ 0%Z.
Proof.
  revert k. induction r as [|c r IH]; intros k; simpl.
  - split; [tauto|]. intros (_ & _ & c & Hc & _). discriminate.
  - rewrite in_app_iff, IH. split.
    + intros [H|(-> & Hk & c' & Hc' & Hne)].
      * destruct (Z.eqb_spec c 0) as [|Hc]; [destruct H|].
        destruct H as [[= <- <-]|[]]. split; [reflexivity|]. split; [lia|].
        exists c. rewrite Nat.sub_diag. auto.
      * split; [reflexivity|]. split; [lia|]. exists c'.
        replace (jy - k)%nat with (S (jy - S k)) by lia. auto.
    + intros (-> & Hk & c' & Hc' & Hne).
      destruct (decide (jy = k)) as [->|Hjk].
      * left. rewrite Nat.sub_diag in Hc'. injection Hc' as <-.
        destruct (Z.eqb_spec c 0) as [|_]; [contradiction | now left].
      * right. split; [reflexivity|]. split; [lia|]. exists c'.
        replace (jy - k)%nat with (S (jy - S k)) in Hc' by lia. auto.
Qed.

Lemma nonzero_from_spec (k : nat) (a : grid Z) (jx jy : nat) :
  In (jx, jy) (nonzero_from k a) ↔
  (k ≤ jx)%nat ∧ ∃ r c, a !! (jx - k)%nat = Some r ∧ r !! jy = Some c ∧ c ≠ 0%Z.
Proof.
  revert k. induction a as [|r a IH]; intros k; simpl.
  - split; [tauto|]. intros (_ & r & c & Hr & _). discriminate.
  - rewrite in_app_iff, IH, nonzero_in_row_spec. split.
    + intros [(-> & _ & c & Hc & Hne)|(Hk & r' & c & Hr' & Hc & Hne)].
      * split; [lia|]. exists r, c. rewrite Nat.sub_diag, Nat.sub_0_r in *. auto.
      * split; [lia|]. exists r', c.
        replace (jx - k)%nat with (S (jx - S k)) by lia. auto.
    + intros (Hk & r' & c & Hr' & Hc & Hne).
      destruct (decide (jx = k)) as [->|Hjk].
      * left. rewrite Nat.sub_diag in Hr'. injection Hr' as <-.
        split; [reflexivity|]. split; [lia|]. exists c. rewrite Nat.sub_0_r. auto.
      * right. split; [lia|]. exists r', c.
        replace (jx - k)%nat with (S (jx - S k)) in Hr' by lia. auto.
Qed.

Lemma nonzero_cells (a : grid Z) (jx jy : nat) :
  In (jx, jy) (nonzero_from 0 a) ↔ sampled a jx jy.
Proof.
  rewrite nonzero_from_spec, Nat.sub_0_r. unfold sampled, getitem. split.
  - intros (_ & r & c & -> & Hc & Hne). exists c. auto.
  - intros (c & Hc & Hne). split; [lia|].
    destruct (a !! jx) as [r|]; [|discriminate]. exists r, c. auto.
Qed.

Lemma fold_min_least (l : list nat) (i : nat) :
  In (fold_left Nat.min l i) (i :: l) ∧ ∀ j, In j (i :: l) → (fold_left Nat.min l i ≤ j)%nat.
Proof.
  revert i. induction l as [|k l IH]; intros i; simpl.
  - split; [now left|]. intros j [<-|[]]. lia.
  - destruct (IH (Nat.min i k)) as [Hin Hle]. split.
    + destruct Hin as [Hin|Hin]; [|now right; right].
      destruct (Nat.min_spec i k) as [[_ E]|[_ E]]; [left | right; left]; congruence.
    + intros j [<-|[<-|Hj]].
      * etransitivity; [apply Hle; now left | lia].
      * etransitivity; [apply Hle; now left | lia].
      * apply Hle. now right.
Qed.

Lemma fold_max_greatest (l : list nat) (i : nat) :
  In (fold_left Nat.max l i) (i :: l) ∧ ∀ j, In j (i :: l) → (j ≤ fold_left Nat.max l i)%nat.
Proof.
  revert i. induction l as [|k l IH]; intros i; simpl.
  - split; [now left|]. intros j [<-|[]]. lia.
  - destruct (IH (Nat.max i k)) as [Hin Hle]. split.
    + destruct Hin as [Hin|Hin]; [|now right; right].
      destruct (Nat.max_spec i k) as [[_ E]|[_ E]]; [right; left | left]; congruence.
    + intros j [<-|[<-|Hj]].
      * etransitivity; [|apply Hle; now left]. lia.
      * etransitivity; [|apply Hle; now left]. lia.
      * apply Hle. now right.
Qed.

Lemma array_min_spec (a : list nat) :
  a ≠ [] → ∃ m, array_min a = Ret m ∧ In m a ∧ ∀ j, In j a → (m ≤ j)%nat.
Proof.
  destruct a as [|i a]; [congruence|]. intros _. eexists. split; [reflexivity|].
  apply fold_min_least.
Qed.

Lemma array_max_spec (a : list nat) :
  a ≠ [] → ∃ m, array_max a = Ret m ∧ In m a ∧ ∀ j, In j a → (j ≤ m)%nat.
Proof.
  destruct a as [|i a]; [congruence|]. intros _. eexists. split; [reflexivity|].
  apply fold_max_greatest.
Qed.

(** the index-space bounding box of the cells that are not zero *)
Lemma bounding_box (a : grid Z) (jx jy : nat) :
  sampled a jx jy →
  ∃ min0 min1 max0 max1,
    array_min (nonzero a).1 = Ret min0 ∧ array_min (nonzero a).2 = Ret min1
    ∧ array_max (nonzero a).1 = Ret max0 ∧ array_max (nonzero a).2 = Ret max1
    ∧ (∃ iy, sampled a min0 iy) ∧ (∃ ix, sampled a ix min1)
    ∧ (∃ iy, sampled a max0 iy) ∧ (∃ ix, sampled a ix max1)
    ∧ ∀ ix iy, sampled a ix iy →
        (min0 ≤ ix ≤ max0)%nat ∧ (min1 ≤ iy ≤ max1)%nat.
Proof.
  intros Hs. apply nonzero_cells in Hs. unfold nonzero. simpl.
  set (cells := nonzero_from 0 a) in *.
  assert (map fst cells ≠ []) as H1 by (destruct cells; [destruct Hs | discriminate]).
  assert (map snd cells ≠ []) as H2 by (destruct cells; [destruct Hs | discriminate]).
  destruct (array_min_spec _ H1) as (min0 & -> & Hin0 & Hle0).
  destruct (array_min_spec _ H2) as (min1 & -> & Hin1 & Hle1).
  destruct (array_max_spec _ H1) as (max0 & -> & Hix0 & Hge0).
  destruct (array_max_spec _ H2) as (max1 & -> & Hix1 & Hge1).
  exists min0, min1, max0, max1. repeat (split; [reflexivity|]).
  apply in_map_iff in Hin0, Hin1, Hix0, Hix1.
  destruct Hin0 as ([? iy0] & <- & Hc0), Hin1 as ([ix1 ?] & <- & Hc1),
           Hix0 as ([? iy2] & <- & Hc2), Hix1 as ([ix3 ?] & <- & Hc3).
  apply nonzero_cells in Hc0, Hc1, Hc2, Hc3. simpl.
  split; [eauto|]. split; [eauto|]. split; [eauto|]. split; [eauto|].
  intros ix iy Hc. apply nonzero_cells in Hc.
  pose proof (in_map fst _ _ Hc) as Hx. pose proof (in_map snd _ _ Hc) as Hy.
  simpl in Hx, Hy.
  split; split; auto.
Qed.

Lemma no_cell_no_nonzero (a : grid Z) :
  (∀ ix iy, ¬ sampled a ix iy) → nonzero_from 0 a = [].
Proof.
  intros H. destruct (nonzero_from 0 a) as [|[ix iy] l] eqn:E; [reflexivity|].
  exfalso. apply (H ix iy), nonzero_cells. rewrite E. now left.
Qed.




(** on that grid the rectangle runs from (0 - 1, 0 - 1) to (1 + 1, 0.5 + 1):
    the corners come from the indices (0, 0) and (2, 1), neither of which
    is a cell that is not zero *)
Example get_wham_borders_two_cells :
  get_wham_borders lambdas_half (demo_runner false sampled_twice) =
  Ret [of_int (-1); of_int (-1); of_int 2; frac 3 2].
Proof. vm_compute. reflexivity. Qed.

(** there, the coordinates (0, 0.5) and (1, 0) of the two cells are
    strictly inside the rectangle *)
Example get_wham_borders_two_cells_inside :
  Forall (λ c, fltb (of_int (-1)) c.1 && fltb c.1 (of_int 2)
               && fltb (of_int (-1)) c.2 && fltb c.2 (frac 3 2) = true)
    (map lambdas_half (nonzero_from 0 sampled_twice)).
Proof. repeat constructor. Qed.

(** the end-to-end scenario of the specification: a 3x3 sample grid that is
    not zero at index (1, 1) only, steps 0.5: the rectangle is the
    coordinate of (1, 1), widened by 1 on every side *)
Example get_wham_borders_single_cell :
  get_wham_borders lambdas_half (demo_runner false sampled_once) =
  Ret [frac (-1) 2; frac (-1) 2; frac 3 2; frac 3 2].
Proof. vm_compute. reflexivity. Qed.

(** C5.  When every cell of the sample grid is zero, [get_wham_borders]
    returns no rectangle: it raises the ValueError of the minimum of a
    zero-size array. *)
Theorem get_wham_borders_empty (get_lambdas_for_index : nat * nat → num * num)
    (self : runner) :
  (∀ ix iy c, getitem (sample_list self) ix iy = Some c → c = 0%Z) →
  get_wham_borders get_lambdas_for_index self = Raise ValueError.
Proof.
  intros Hzero. unfold get_wham_borders, nonzero.
  rewrite no_cell_no_nonzero; [reflexivity|].
  intros ix iy (c & Hc & Hne). apply Hne, (Hzero ix iy c Hc).
Qed.

Lemma get_wham_borders_empty_witness :
  get_wham_borders lambdas_half (demo_runner false sampled_never) = Raise ValueError.
Proof.
  apply (get_wham_borders_empty lambdas_half (demo_runner false sampled_never)).
  intros [|[|[|ix]]] [|[|[|iy]]] c H; cbv in H; congruence.
Defined.

(** * The metadata writer *)

Lemma string_app_assoc (a b c : string) : (a +:+ b) +:+ c = a +:+ (b +:+ c).
Proof.
  induction a as [|ch a IH]; [reflexivity|].
  change (String ch ((a +:+ b) +:+ c) = String ch (a +:+ (b +:+ c))).
  f_equal. exact IH.
Qed.

Lemma string_app_empty_r (a : string) : a +:+ "" = a.
Proof.
  induction a as [|ch a IH]; [reflexivity|].
  change (String ch (a +:+ "") = String ch a). f_equal. exact IH.
Qed.

Section MetadataWriter.

Variable get_sampled_lambdas : runner → list (num * num).
Variable str_float : num → string.
Variable self : runner.

Let path := metadata_path self.
Let line := metadata_line str_float self.
Let colvar := colvar_file str_float self.
Let written_at := written str_float self.
Let not_found_at := not_found str_float self.

Lemma written_insert (files : gmap string string) (text text' : string) (l : num * num) :
  files !! path = Some text →
  written_at (<[path := text']> files) l = written_at files l.
Proof.
  intros Hp. unfold written_at, written. fold colvar. f_equal. f_equal. f_equal.
  apply bool_decide_ext. destruct (decide (path = colvar l)) as [E|E].
  - rewrite <- E, lookup_insert_eq, Hp. split; eauto.
  - rewrite lookup_insert_ne by exact E. reflexivity.
Qed.

Lemma metadata_entries (ls : list (num * num)) (files : gmap string string)
    (tr : list event) (text : string) :
  files !! path = Some text →
  for_each ls (metadata_entry str_float self path) (World files tr) =
  (Ret tt,
   World (<[path := text +:+ text_of (map line (List.filter (written_at files) ls))]> files)
         (tr ++ map not_found_at (List.filter (λ l, negb (written_at files l)) ls))).
Proof.
  revert files tr text. induction ls as [|l ls IH]; intros files tr text Hp.
  - simpl. rewrite string_app_empty_r, app_nil_r, insert_id by exact Hp. reflexivity.
  - cbn [for_each]. unfold metadata_entry at 1, bind, path_exists. cbn [fs trace].
    fold colvar. cbn [List.filter].
    assert (written_at files l
            = negb (negb (bool_decide (is_Some (files !! colvar l))) && verbose self))
      as Hw by reflexivity.
    destruct (negb (bool_decide (is_Some (files !! colvar l))) && verbose self) eqn:E;
      rewrite Hw; cbn [negb].
    + unfold print. cbn [fs trace map]. rewrite (IH _ _ text) by exact Hp.
      rewrite <- app_assoc. reflexivity.
    + unfold write. cbn [fs trace]. rewrite Hp. cbn [default].
      rewrite (IH _ _ (text +:+ line l)) by apply lookup_insert_eq.
      rewrite insert_insert_eq. cbn [map text_of foldr]. fold text_of.
      rewrite string_app_assoc.
      rewrite (filter_ext (written_at (<[path:=text +:+ line l]> files)) (written_at files))
        by (intros l'; eapply written_insert, Hp).
      rewrite (filter_ext (λ l', negb (written_at (<[path:=text +:+ line l]> files) l'))
                 (λ l', negb (written_at files l')))
        by (intros l'; f_equal; eapply written_insert, Hp).
      reflexivity.
Qed.

(** what [create_metadata_file] leaves behind: the manifest holds one line
    for each sampled pair that passes the test of line 38, in order *)
Lemma create_metadata_file_spec (w : world) :
  let files := <[path := ""]> (fs w) in
  create_metadata_file get_sampled_lambdas str_float self w =
  (Ret path,
   World (<[path := text_of (map line (List.filter (written_at files) (get_sampled_lambdas self)))]>
            (fs w))
         (trace w ++ map not_found_at
                       (List.filter (λ l, negb (written_at files l)) (get_sampled_lambdas self)))).
Proof.
  intros files. unfold create_metadata_file, bind, open_w, ret. fold path.
  rewrite (metadata_entries _ _ _ "") by apply lookup_insert_eq.
  fold files. unfold files at 2. rewrite insert_insert_eq. reflexivity.
Qed.

End MetadataWriter.

(** with [verbose] set, the manifest holds the sampled pairs whose data file
    exists, and each missing file is reported *)
Lemma create_metadata_file_verbose (get_sampled_lambdas : runner → list (num * num))
    (str_float : num → string) (self : runner) (w : world) :
  verbose self = true →
  let files := <[metadata_path self := ""]> (fs w) in
  let found l := bool_decide (is_Some (files !! colvar_file str_float self l)) in
  create_metadata_file get_sampled_lambdas str_float self w =
  (Ret (metadata_path self),
   World (<[metadata_path self :=
              text_of (map (metadata_line str_float self)
                         (List.filter found (get_sampled_lambdas self)))]> (fs w))
         (trace w ++ map (not_found str_float self)
                       (List.filter (λ l, negb (found l)) (get_sampled_lambdas self)))).
Proof.
  intros Hv files found. rewrite create_metadata_file_spec. fold files.
  assert (∀ l, written str_float self files l = found l) as Hw.
  { intros l. unfold written, found. rewrite Hv, andb_true_r. apply negb_involutive. }
  rewrite (filter_ext _ _ Hw).
  rewrite (filter_ext (λ l, negb (written str_float self files l)) (λ l, negb (found l)))
    by (intros l; f_equal; apply Hw).
  reflexivity.
Qed.

(** without [verbose], the manifest holds every sampled pair, whether its
    data file exists or not, and nothing is reported *)
Lemma create_metadata_file_quiet (get_sampled_lambdas : runner → list (num * num))
    (str_float : num → string) (self : runner) (w : world) :
  verbose self = false →
  create_metadata_file get_sampled_lambdas str_float self w =
  (Ret (metadata_path self),
   World (<[metadata_path self :=
              text_of (map (metadata_line str_float self) (get_sampled_lambdas self))]> (fs w))
         (trace w)).
Proof.
  intros Hv. rewrite create_metadata_file_spec.
  set (files := <[metadata_path self := ""]> (fs w)).
  assert (∀ l, written str_float self files l = true) as Hw.
  { intros l. unfold written. rewrite Hv, andb_false_r. reflexivity. }
  rewrite (filter_ext _ (λ _, true) Hw).
  rewrite (filter_ext (λ l, negb (written str_float self files l)) (λ _, false))
    by (intros l; rewrite Hw; reflexivity).
  clear Hw. induction (get_sampled_lambdas self) as [|l ls IH].
  - simpl. rewrite app_nil_r. reflexivity.
  - simpl. simpl in IH. injection IH as IH1 IH2.
    rewrite IH2. f_equal. f_equal.
    assert (List.filter (λ _ : num * num, true) ls = ls) as ->; [|reflexivity].
    clear. induction ls as [|a ls IH]; simpl; [reflexivity | now rewrite IH].
Qed.

(** C6.  The claim fails on the code.  With [verbose] unset, one sampled
    pair and no data file on disk, [create_metadata_file] writes the
    manifest line of the pair whose data file is missing. *)
Theorem create_metadata_file_quiet_writes_missing :
  let self := demo_runner false sampled_once in
  let w := World ∅ [] in
  demo_sampled_lambdas self = [(frac 1 2, frac 1 2)]
  ∧ fs w !! colvar_file str_fraction self (frac 1 2, frac 1 2) = None
  ∧ create_metadata_file demo_sampled_lambdas str_fraction self w =
    (Ret "tmp/WHAM/0_metadata.dat",
     World {["tmp/WHAM/0_metadata.dat" := metadata_line str_fraction self (frac 1 2, frac 1 2)]} []).
Proof. repeat split. Qed.

(** * The output loader *)

Lemma dropna_replace_inf (df : frame) :
  dropna_e (map replace_inf_row df) =
  map (λ r, Row (replace_inf (x r)) (replace_inf (y r)) (e r) (replace_inf (pro r)))
      (List.filter (λ r, isfinite (e r)) df).
Proof.
  unfold dropna_e. induction df as [|r df IH]; simpl; [reflexivity|].
  rewrite IH. destruct r as [rx ry [?|?| |? ? ?] rp]; reflexivity.
Qed.

Lemma replace_inf_id (v : num) : isinf v = false → replace_inf v = v.
Proof. unfold replace_inf. now intros ->. Qed.

(** C7, as amended.  [load_wham_pmf] returns, in their order in the file,
    the parsed rows whose energy is finite: a row whose energy is
    plus-infinity, minus-infinity or NaN is dropped.  The energy of a row
    that is kept is unchanged; its [x], [y] and [pro] are unchanged unless
    infinite, and an infinite one is replaced by NaN. *)
Theorem load_wham_pmf_keeps_finite_energy (read_csv : string → option (list row))
    (wham_file : string) (w : world) (text : string) (df : frame) :
  fs w !! wham_file = Some text → read_csv text = Some df →
  ∃ out w',
    load_wham_pmf read_csv wham_file w = (Ret out, w')
    ∧ out = map (λ r, Row (if isinf (x r) then NaN else x r)
                          (if isinf (y r) then NaN else y r)
                          (e r)
                          (if isinf (pro r) then NaN else pro r))
                (List.filter (λ r, isfinite (e r)) df)
    ∧ ((∀ r, In r df → isinf (x r) = false ∧ isinf (y r) = false ∧ isinf (pro r) = false) →
       out = List.filter (λ r, isfinite (e r)) df).
Proof.
  intros Hf Hparse. unfold load_wham_pmf. rewrite Hf, Hparse.
  eexists _, _. split; [reflexivity|]. split; [apply dropna_replace_inf|].
  intros Hfin. rewrite dropna_replace_inf.
  rewrite <- (map_id (List.filter _ df)) at 2. apply map_ext_in.
  intros [rx ry re rp] Hr. apply filter_In in Hr. destruct Hr as [Hr _].
  destruct (Hfin _ Hr) as (Hx & Hy & Hp). simpl in *.
  rewrite !replace_inf_id by assumption. reflexivity.
Qed.

(** the rows of the specification's example, and a table whose second row
    has a finite energy and an infinite probability *)
Lemma load_wham_pmf_keeps_finite_energy_witness :
  ∃ out w',
    load_wham_pmf (λ _, Some [Row ((frac 1 10)) ((frac 2 10)) PInf (of_int 0);
                              Row ((frac 1 10)) ((frac 3 10)) ((frac (-3) 2)) ((frac 2 10))])
      "out.dat" (World {["out.dat" := ""]} []) = (Ret out, w')
    ∧ out = map (λ r, Row (if isinf (x r) then NaN else x r)
                          (if isinf (y r) then NaN else y r)
                          (e r)
                          (if isinf (pro r) then NaN else pro r))
                (List.filter (λ r, isfinite (e r))
                   [Row ((frac 1 10)) ((frac 2 10)) PInf (of_int 0);
                    Row ((frac 1 10)) ((frac 3 10)) ((frac (-3) 2)) ((frac 2 10))])
    ∧ ((∀ r, In r [Row ((frac 1 10)) ((frac 2 10)) PInf (of_int 0);
                   Row ((frac 1 10)) ((frac 3 10)) ((frac (-3) 2)) ((frac 2 10))] →
             isinf (x r) = false ∧ isinf (y r) = false ∧ isinf (pro r) = false) →
       out = List.filter (λ r, isfinite (e r))
               [Row ((frac 1 10)) ((frac 2 10)) PInf (of_int 0);
                Row ((frac 1 10)) ((frac 3 10)) ((frac (-3) 2)) ((frac 2 10))]).
Proof.
  apply (load_wham_pmf_keeps_finite_energy _ "out.dat" (World {["out.dat" := ""]} []) "").
  - reflexivity.
  - reflexivity.
Defined.

Example load_wham_pmf_example :
  (load_wham_pmf (λ _, Some [Row ((frac 1 10)) ((frac 2 10)) PInf (of_int 0);
                             Row ((frac 1 10)) ((frac 3 10)) ((frac (-3) 2)) ((frac 2 10))])
     "out.dat" (World {["out.dat" := ""]} [])).1 =
  Ret [Row ((frac 1 10)) ((frac 3 10)) ((frac (-3) 2)) ((frac 2 10))].
Proof. reflexivity. Qed.

(** C7, as stated, fails: a row with a finite energy and an infinite
    probability is returned with its probability changed to NaN. *)
Lemma load_wham_pmf_changes_infinite_column :
  let df := [Row ((frac 1 10)) ((frac 2 10)) ((frac (-3) 2)) PInf] in
  (load_wham_pmf (λ _, Some df) "out.dat" (World {["out.dat" := ""]} [])).1
  = Ret [Row ((frac 1 10)) ((frac 2 10)) ((frac (-3) 2)) NaN]
  ∧ (load_wham_pmf (λ _, Some df) "out.dat" (World {["out.dat" := ""]} [])).1
    ≠ Ret (List.filter (λ r, isfinite (e r)) df).
Proof. split; [reflexivity | discriminate]. Qed.

(** * The solver invoker *)

Lemma calls_app (tr tr' : list event) : calls (tr ++ tr') = calls tr ++ calls tr'.
Proof. apply omap_app. Qed.

Lemma reads_app (tr tr' : list event) : reads (tr ++ tr') = reads tr ++ reads tr'.
Proof. apply omap_app. Qed.

Lemma calls_not_found (str_float : num → string) (self : runner) (ls : list (num * num)) :
  calls (map (not_found str_float self) ls) = [].
Proof. induction ls as [|l ls IH]; [reflexivity | exact IH]. Qed.

Lemma reads_not_found (str_float : num → string) (self : runner) (ls : list (num * num)) :
  reads (map (not_found str_float self) ls) = [].
Proof. induction ls as [|l ls IH]; [reflexivity | exact IH]. Qed.

(** the manifest and the solver output never share a path *)
Lemma join2_suffix_ne (a p s1 s2 : string) :
  s1 ≠ s2 → starts_with_sep s1 = false → starts_with_sep s2 = false →
  join2 a (p +:+ s1) ≠ join2 a (p +:+ s2).
Proof.
  intros Hne H1 H2. unfold join2.
  assert (starts_with_sep (p +:+ s1) = starts_with_sep (p +:+ s2)) as E.
  { destruct p as [|c p]; [|reflexivity].
    change (starts_with_sep s1 = starts_with_sep s2). congruence. }
  rewrite <- E. destruct (starts_with_sep (p +:+ s1)).
  - intros H. apply Hne. eapply String.app_inj, H.
  - destruct (String.eqb a "" || ends_with_sep a)%bool.
    + intros H. apply Hne. eapply String.app_inj, String.app_inj, H.
    + intros H. apply Hne.
      eapply String.app_inj, String.app_inj, String.app_inj, H.
Qed.

Lemma metadata_path_ne_output (self : runner) :
  metadata_path self ≠ get_wham_output_file self.
Proof.
  unfold metadata_path, get_wham_output_file, path_join. simpl.
  apply join2_suffix_ne; [discriminate | reflexivity | reflexivity].
Qed.

Section SolverInvoker.

Variable get_lambdas_for_index : nat * nat → num * num.
Variable str_float : num → string.
Variable solver : string → gmap string string → Z * gmap string string.
Variable self : runner.
Variables metafile_path output_path : string.

Let run := run_wham2d get_lambdas_for_index str_float solver self metafile_path output_path.

Lemma run_wham2d_skips (w : world) :
  is_Some (fs w !! output_path) →
  run w = (Ret tt, World (fs w) (trace w ++
            [Print ("skipping wham, " +:+ output_path +:+ " already exists.")])).
Proof.
  intros H. unfold run, run_wham2d, bind, path_exists.
  rewrite bool_decide_eq_true_2 by exact H. reflexivity.
Qed.

Lemma run_wham2d_invokes (w : world) :
  fs w !! output_path = None →
  run w =
  match get_wham_borders get_lambdas_for_index self with
  | Raise ex => (Raise ex, w)
  | Ret borders =>
      let cmd := wham_cmd str_float self borders metafile_path output_path in
      let tr := trace w ++ (if verbose self then [Print cmd] else []) ++ [Call cmd] in
      if ((solver cmd (fs w)).1 =? 0)%Z
      then (Ret tt, World (solver cmd (fs w)).2 tr)
      else (Raise (SystemExit 1),
            World (solver cmd (fs w)).2
              (tr ++ [Print ("wham exited with error code " +:+ pretty (solver cmd (fs w)).1)]))
  end.
Proof.
  intros H. unfold run, run_wham2d, bind, path_exists.
  rewrite bool_decide_eq_false_2 by (rewrite H; intros [? ?]; discriminate).
  destruct (get_wham_borders get_lambdas_for_index self) as [borders|ex]; [|reflexivity].
  cbv zeta. unfold subprocess_call, print, bind.
  destruct (verbose self); cbn [fs trace];
    destruct (solver _ (fs w)) as [code files'] eqn:E; cbn [fst snd];
    destruct (code =? 0)%Z; unfold ret, exit, raise; cbn [fs trace];
    rewrite <- ?app_assoc; reflexivity.
Qed.

End SolverInvoker.

Lemma for_each_raises {S A : Type} (P : exn → Prop) (body : A → S → outcome unit * S)
    (l : list A) (s s' : S) (ex : exn) :
  (∀ a t t' ex', body a t = (Raise ex', t') → P ex') →
  for_each l body s = (Raise ex, s') → P ex.
Proof.
  intros Hbody. revert s. induction l as [|a l IH]; intros s; simpl; [discriminate|].
  destruct (body a s) as [[[]|ex'] t] eqn:E.
  - apply IH.
  - intros [= <- <-]. eapply Hbody, E.
Qed.

Lemma update_pmf_raises (get_lambdas_for_index : nat * nat → num * num) (step_x step_y : num)
    (wham_pmf : frame) (pmf pmf' : grid num) (ex : exn) :
  update_pmf get_lambdas_for_index step_x step_y wham_pmf pmf = (Raise ex, pmf') →
  ex = IndexError.
Proof.
  unfold update_pmf. destruct (shape pmf) as [n m].
  apply (for_each_raises (λ ex, ex = IndexError)). intros ix t t' ex'.
  apply (for_each_raises (λ ex, ex = IndexError)). intros iy u u' ex''. unfold update_cell.
  destruct (cell_value_total get_lambdas_for_index step_x step_y wham_pmf ix iy) as (v & ->).
  destruct (setitem u ix iy v); congruence.
Qed.

(** C8.  When the output file exists, [run_wham2d] runs no command and
    returns normally: it prints one line and leaves the files as they are.
    Hence, when the world in which it is called was left by an earlier call
    with the same output path that found no output file and produced it,
    the two calls together ran the solver exactly once. *)
Theorem run_wham2d_cached (get_lambdas_for_index : nat * nat → num * num)
    (str_float : num → string) (solver : string → gmap string string → Z * gmap string string)
    (self : runner) (metafile_path output_path : string) (w : world) :
  is_Some (fs w !! output_path) →
  let run := run_wham2d get_lambdas_for_index str_float solver self metafile_path output_path in
  run w = (Ret tt, World (fs w) (trace w ++
            [Print ("skipping wham, " +:+ output_path +:+ " already exists.")]))
  ∧ calls (trace (run w).2) = calls (trace w)
  ∧ ∀ w0, fs w0 !! output_path = None → run w0 = (Ret tt, w) →
      ∃ cmd, calls (trace w) = calls (trace w0) ++ [cmd]
             ∧ calls (trace (run w).2) = calls (trace w0) ++ [cmd].
Proof.
  intros Hex run.
  pose proof (run_wham2d_skips get_lambdas_for_index str_float solver self
                metafile_path output_path w Hex) as Hskip.
  fold run in Hskip.
  assert (calls (trace (run w).2) = calls (trace w)) as Hcalls.
  { rewrite Hskip. cbn [snd trace]. rewrite calls_app. apply app_nil_r. }
  split; [exact Hskip|]. split; [exact Hcalls|].
  intros w0 Hnone Hfirst. unfold run in Hfirst.
  rewrite run_wham2d_invokes in Hfirst by exact Hnone.
  destruct (get_wham_borders get_lambdas_for_index self) as [borders|ex]; [|discriminate].
  cbv zeta in Hfirst.
  set (cmd := wham_cmd str_float self borders metafile_path output_path) in Hfirst.
  destruct ((solver cmd (fs w0)).1 =? 0)%Z; [|discriminate].
  injection Hfirst as Hw. exists cmd.
  assert (calls (trace w) = calls (trace w0) ++ [cmd]) as Hone.
  { rewrite <- Hw. cbn [trace]. rewrite !calls_app.
    destruct (verbose self); reflexivity. }
  split; [exact Hone | rewrite Hcalls; exact Hone].
Qed.

Lemma run_wham2d_cached_witness :
  let run := run_wham2d lambdas_half str_fraction solver_writes_table
               (demo_runner false sampled_once)
               "tmp/WHAM/0_metadata.dat" "tmp/WHAM/0_freeenergy.dat" in
  let w := (run (World ∅ [])).2 in
  is_Some (fs w !! "tmp/WHAM/0_freeenergy.dat")
  ∧ run w = (Ret tt, World (fs w) (trace w ++
               [Print ("skipping wham, " +:+ "tmp/WHAM/0_freeenergy.dat" +:+ " already exists.")]))
  ∧ calls (trace (run w).2) = calls (trace w)
  ∧ ∀ w0, fs w0 !! "tmp/WHAM/0_freeenergy.dat" = None → run w0 = (Ret tt, w) →
      ∃ cmd, calls (trace w) = calls (trace w0) ++ [cmd]
             ∧ calls (trace (run w).2) = calls (trace w0) ++ [cmd].
Proof.
  intros run w.
  assert (is_Some (fs w !! "tmp/WHAM/0_freeenergy.dat")) as H
    by (exists "two rows"; reflexivity).
  split; [exact H|].
  exact (run_wham2d_cached lambdas_half str_fraction solver_writes_table
           (demo_runner false sampled_once)
           "tmp/WHAM/0_metadata.dat" "tmp/WHAM/0_freeenergy.dat" w H).
Defined.

(** two invocations in a row, starting without an output file: one command *)
Example run_wham2d_twice :
  let run := run_wham2d lambdas_half str_fraction solver_writes_table
               (demo_runner false sampled_once)
               "tmp/WHAM/0_metadata.dat" "tmp/WHAM/0_freeenergy.dat" in
  (run (World ∅ [])).1 = Ret tt
  ∧ (run (run (World ∅ [])).2).1 = Ret tt
  ∧ length (calls (trace (run (run (World ∅ [])).2).2)) = 1%nat.
Proof. repeat split. Qed.

(** * The pipeline *)

(** C9.  When no output file exists and the solver exits with a status that
    is not zero, [run_wham2d] prints the status and raises [SystemExit];
    [calculate_new_pmf] ends with that exception: the command was run once,
    the last thing done is the report of the status, no file is read and the
    runner, with its PMF grid, is as it was. *)
Theorem calculate_new_pmf_solver_failure (get_lambdas_for_index : nat * nat → num * num)
    (get_sampled_lambdas : runner → list (num * num)) (str_float : num → string)
    (solver : string → gmap string string → Z * gmap string string)
    (read_csv : string → option (list row)) (self : runner) (w : world)
    (borders : list num) :
  fs w !! get_wham_output_file self = None →
  get_wham_borders get_lambdas_for_index self = Ret borders →
  let w1 := (create_metadata_file get_sampled_lambdas str_float self w).2 in
  let cmd := wham_cmd str_float self borders (metadata_path self) (get_wham_output_file self) in
  (solver cmd (fs w1)).1 ≠ 0%Z →
  ∃ tr,
    calculate_new_pmf get_lambdas_for_index get_sampled_lambdas str_float solver read_csv self w
    = (Raise (SystemExit 1), self, World (solver cmd (fs w1)).2 tr)
    ∧ run_wham2d get_lambdas_for_index str_float solver self
        (metadata_path self) (get_wham_output_file self) w1
      = (Raise (SystemExit 1), World (solver cmd (fs w1)).2 tr)
    ∧ last tr = Some (Print ("wham exited with error code "
                             +:+ pretty (solver cmd (fs w1)).1))
    ∧ calls tr = calls (trace w) ++ [cmd]
    ∧ reads tr = reads (trace w).
Proof.
  intros Hnone Hb w1 cmd Hcode.
  assert (fs w1 !! get_wham_output_file self = None) as Hnone1.
  { unfold w1. rewrite create_metadata_file_spec. cbn [snd fs].
    rewrite lookup_insert_ne by apply metadata_path_ne_output. exact Hnone. }
  pose proof (run_wham2d_invokes get_lambdas_for_index str_float solver self
                (metadata_path self) (get_wham_output_file self) w1 Hnone1) as Hrun.
  rewrite Hb in Hrun. cbv zeta in Hrun. fold cmd in Hrun.
  apply Z.eqb_neq in Hcode. rewrite Hcode in Hrun.
  eexists. split; [|split; [exact Hrun|]].
  - unfold calculate_new_pmf.
    assert (create_metadata_file get_sampled_lambdas str_float self w
            = (Ret (metadata_path self), w1)) as Hmeta.
    { unfold w1. rewrite create_metadata_file_spec. reflexivity. }
    rewrite Hmeta, Hrun. reflexivity.
  - split; [apply last_snoc|].
    unfold w1. rewrite create_metadata_file_spec. cbn [snd trace].
    rewrite !calls_app, !reads_app, calls_not_found, reads_not_found.
    destruct (verbose self); simpl; rewrite !app_nil_r; split; reflexivity.
Qed.

Lemma calculate_new_pmf_solver_failure_witness :
  let self := demo_runner true sampled_once in
  let w := World ∅ [] in
  let borders := [frac (-1) 2; frac (-1) 2; frac 3 2; frac 3 2] in
  let w1 := (create_metadata_file demo_sampled_lambdas str_fraction self w).2 in
  let cmd := wham_cmd str_fraction self borders (metadata_path self) (get_wham_output_file self) in
  ∃ tr,
    calculate_new_pmf lambdas_half demo_sampled_lambdas str_fraction solver_fails
      demo_read_csv self w
    = (Raise (SystemExit 1), self, World (solver_fails cmd (fs w1)).2 tr)
    ∧ run_wham2d lambdas_half str_fraction solver_fails self
        (metadata_path self) (get_wham_output_file self) w1
      = (Raise (SystemExit 1), World (solver_fails cmd (fs w1)).2 tr)
    ∧ last tr = Some (Print ("wham exited with error code "
                             +:+ pretty (solver_fails cmd (fs w1)).1))
    ∧ calls tr = calls (trace w) ++ [cmd]
    ∧ reads tr = reads (trace w).
Proof.
  intros self w borders w1 cmd.
  apply (calculate_new_pmf_solver_failure lambdas_half demo_sampled_lambdas str_fraction
           solver_fails demo_read_csv self w borders).
  - reflexivity.
  - reflexivity.
  - discriminate.
Defined.

(** C10.  When the output file exists, [calculate_new_pmf] does not raise
    the ValueError of an empty sample grid, whatever the sample grid, and it
    runs no command; when the file parses and the PMF grid is an array, it
    returns the updated grid. *)
Theorem calculate_new_pmf_cached (get_lambdas_for_index : nat * nat → num * num)
    (get_sampled_lambdas : runner → list (num * num)) (str_float : num → string)
    (solver : string → gmap string string → Z * gmap string string)
    (read_csv : string → option (list row)) (self : runner) (w : world) :
  is_Some (fs w !! get_wham_output_file self) →
  let res := calculate_new_pmf get_lambdas_for_index get_sampled_lambdas str_float
               solver read_csv self w in
  res.1.1 ≠ Raise ValueError
  ∧ calls (trace res.2) = calls (trace w)
  ∧ ∀ text df, fs w !! get_wham_output_file self = Some text → read_csv text = Some df →
      rectangular (pmf self) →
      ∃ pmf', res.1.1 = Ret pmf' ∧ pmf res.1.2 = pmf'.
Proof.
  intros [text Htext] res. unfold res, calculate_new_pmf.
  rewrite create_metadata_file_spec. cbv zeta.
  set (w1 := World _ _).
  assert (fs w1 !! get_wham_output_file self = Some text) as Htext1.
  { unfold w1. cbn [fs]. rewrite lookup_insert_ne by apply metadata_path_ne_output.
    exact Htext. }
  rewrite run_wham2d_skips by (rewrite Htext1; eauto).
  unfold load_wham_pmf. cbn [fs trace]. rewrite Htext1.
  assert (∀ tr', calls (trace w1 ++ tr') = calls (trace w) ++ calls tr') as Hcalls.
  { intros tr'. unfold w1. cbn [trace]. rewrite !calls_app, calls_not_found, app_nil_r.
    reflexivity. }
  destruct (read_csv text) as [df|] eqn:Hparse.
  - destruct (update_pmf _ _ _ _ (pmf self)) as [[[]|ex] pmf'] eqn:Hup; cbn [fst snd trace].
    + split; [discriminate|]. split.
      * rewrite <- app_assoc, Hcalls. apply app_nil_r.
      * intros text' df' _ _ _. exists pmf'. split; reflexivity.
    + pose proof (update_pmf_raises _ _ _ _ _ _ _ Hup) as ->. split; [discriminate|]. split.
      * rewrite <- app_assoc, Hcalls. apply app_nil_r.
      * intros text' df' Htext' Hparse' Hrect. exfalso.
        destruct (update_pmf_cells get_lambdas_for_index (cv_step (cvs self).1)
                    (cv_step (cvs self).2) (dropna_e (map replace_inf_row df))
                    (pmf self) Hrect) as (p & Hp & _).
        congruence.
  - cbn [fst snd trace]. split; [discriminate|]. split.
    + rewrite <- app_assoc, Hcalls. apply app_nil_r.
    + intros text' df' Htext' Hparse' _. congruence.
Qed.

Lemma calculate_new_pmf_cached_witness :
  let self := demo_runner false sampled_never in
  let w := World {["tmp/WHAM/0_freeenergy.dat" := "two rows"]} [] in
  let res := calculate_new_pmf lambdas_half demo_sampled_lambdas str_fraction
               solver_fails demo_read_csv self w in
  get_wham_borders lambdas_half self = Raise ValueError
  ∧ is_Some (fs w !! get_wham_output_file self)
  ∧ res.1.1 ≠ Raise ValueError
  ∧ calls (trace res.2) = calls (trace w)
  ∧ ∀ text df, fs w !! get_wham_output_file self = Some text → demo_read_csv text = Some df →
      rectangular (pmf self) →
      ∃ pmf', res.1.1 = Ret pmf' ∧ pmf res.1.2 = pmf'.
Proof.
  intros self w res. split; [reflexivity|].
  assert (is_Some (fs w !! get_wham_output_file self)) as H
    by (exists "two rows"; reflexivity).
  split; [exact H|].
  exact (calculate_new_pmf_cached lambdas_half demo_sampled_lambdas str_fraction
           solver_fails demo_read_csv self w H).
Defined.

Example calculate_new_pmf_cached_empty_grid :
  (calculate_new_pmf lambdas_half demo_sampled_lambdas str_fraction solver_fails demo_read_csv
     (demo_runner false sampled_never)
     (World {["tmp/WHAM/0_freeenergy.dat" := "two rows"]} [])).1.1 =
  Ret pmf_two_rows.
Proof. reflexivity. Qed.

(** * Further properties of the grid projector *)

Lemma find_split {A : Type} (p : A → bool) (l : list A) (a : A) :
  find p l = Some a →
  ∃ pre post, l = pre ++ a :: post ∧ p a = true ∧ ∀ b, In b pre → p b = false.
Proof.
  induction l as [|c l IH]; simpl; [discriminate|].
  destruct (p c) eqn:Hc.
  - intros [= <-]. exists [], l. split; [reflexivity|]. split; [exact Hc|]. intros b [].
  - intros H. destruct (IH H) as (pre & post & -> & Ha & Hpre).
    exists (c :: pre), post. split; [reflexivity|]. split; [exact Ha|].
    intros b [<-|Hb]; [exact Hc | apply Hpre, Hb].
Qed.

Lemma find_filter {A : Type} (p w : A → bool) (l : list A) :
  (∀ a, p a = true → w a = true) → find p (List.filter w l) = find p l.
Proof.
  intros Hpw. induction l as [|a l IH]; simpl; [reflexivity|].
  destruct (w a) eqn:Hw; simpl.
  - destruct (p a); [reflexivity | exact IH].
  - destruct (p a) eqn:Hp; [|exact IH]. apply Hpw in Hp. congruence.
Qed.

Lemma feqb_trans (a b c : num) : feqb a b = true → feqb b c = true → feqb a c = true.
Proof.
  intros Hab Hbc. apply feqb_fleb in Hab, Hbc. destruct Hab, Hbc.
  apply fleb_antisym; eapply fleb_trans; eassumption.
Qed.

Lemma cell_value_first_minimum (get_lambdas_for_index : nat * nat → num * num)
    (step_x step_y : num) (wham_pmf : frame) (ix iy : nat) (lambdax lambday : num) :
  get_lambdas_for_index (ix, iy) = (lambdax, lambday) →
  reduced_rows step_x step_y wham_pmf lambdax lambday ≠ [] →
  let dist := dist_of lambdax lambday in
  ∃ r0 pre post,
    reduced_rows step_x step_y wham_pmf lambdax lambday = pre ++ r0 :: post
    ∧ cell_value get_lambdas_for_index step_x step_y wham_pmf ix iy = Ret (e r0)
    ∧ (∀ r, In r pre → fltb (dist r0) (dist r) = true)
    ∧ (∀ r, In r post → fleb (dist r0) (dist r) = true).
Proof.
  intros Hl Hne dist.
  destruct (cell_value_nearest get_lambdas_for_index step_x step_y wham_pmf ix iy
              lambdax lambday Hl Hne) as (r0 & r1 & Hf0 & _ & Hv & -> & Hin & Hmin).
  destruct (find_split _ _ _ Hf0) as (pre & post & Hsplit & Hp0 & Hpre).
  exists r0, pre, post. split; [exact Hsplit|]. split; [exact Hv|].
  cbv beta in Hp0. split.
  - intros r Hr.
    assert (In r (reduced_rows step_x step_y wham_pmf lambdax lambday)) as Hr'.
    { rewrite Hsplit. apply in_or_app. now left. }
    specialize (Hpre r Hr). cbv beta in Hpre.
    apply fleb_not_feqb; [apply Hmin, Hr'|].
    destruct (feqb (dist_of lambdax lambday r) (dist_of lambdax lambday r0)) eqn:E;
      [|exact E].
    rewrite (feqb_trans _ _ _ E Hp0) in Hpre. discriminate.
  - intros r Hr. apply Hmin. rewrite Hsplit. apply in_or_app. right. now right.
Qed.

(** X1.  The tie-break of [update_pmf] is the order of the table: the cell
    holds the energy of the first row of its window at the least computed
    distance.  Every row of the window before that row is strictly farther
    from the cell, every row after it is at least as far, by the distances
    that the code computes. *)
Theorem update_pmf_first_minimum (get_lambdas_for_index : nat * nat → num * num)
    (step_x step_y : num) (wham_pmf : frame) (pmf : grid num) (ix iy : nat)
    (lambdax lambday : num) (r : row) :
  rectangular pmf → (ix < (shape pmf).1)%nat → (iy < (shape pmf).2)%nat →
  get_lambdas_for_index (ix, iy) = (lambdax, lambday) →
  In r (reduced_rows step_x step_y wham_pmf lambdax lambday) →
  let dist := dist_of lambdax lambday in
  ∃ pmf' r0 pre post,
    update_pmf get_lambdas_for_index step_x step_y wham_pmf pmf = (Ret tt, pmf')
    ∧ reduced_rows step_x step_y wham_pmf lambdax lambday = pre ++ r0 :: post
    ∧ getitem pmf' ix iy = Some (e r0)
    ∧ (∀ r', In r' pre → fltb (dist r0) (dist r') = true)
    ∧ (∀ r', In r' post → fleb (dist r0) (dist r') = true).
Proof.
  intros Hrect Hx Hy Hl Hr dist.
  destruct (update_pmf_cells get_lambdas_for_index step_x step_y wham_pmf pmf Hrect)
    as (pmf' & Hrun & _ & Hcells).
  destruct (Hcells ix iy Hx Hy) as (v & Hv & Hget).
  destruct (cell_value_first_minimum get_lambdas_for_index step_x step_y wham_pmf ix iy
              lambdax lambday Hl) as (r0 & pre & post & Hsplit & Hv0 & Hpre & Hpost).
  { intros Hnil. rewrite Hnil in Hr. exact Hr. }
  exists pmf', r0, pre, post. split; [exact Hrun|]. split; [exact Hsplit|].
  split; [congruence|]. split; [exact Hpre | exact Hpost].
Qed.

Lemma update_pmf_first_minimum_witness :
  ∃ pmf' r0 pre post,
    update_pmf lambdas_half (frac 1 2) (frac 1 2) wham_tie pmf_3x3 = (Ret tt, pmf')
    ∧ reduced_rows (frac 1 2) (frac 1 2) wham_tie (of_int 1) (of_int 1) = pre ++ r0 :: post
    ∧ getitem pmf' 2 2 = Some (e r0)
    ∧ (∀ r', In r' pre →
         fltb (dist_of (of_int 1) (of_int 1) r0) (dist_of (of_int 1) (of_int 1) r') = true)
    ∧ (∀ r', In r' post →
         fleb (dist_of (of_int 1) (of_int 1) r0) (dist_of (of_int 1) (of_int 1) r') = true).
Proof.
  apply (update_pmf_first_minimum lambdas_half (frac 1 2) (frac 1 2) wham_tie pmf_3x3 2 2
           (of_int 1) (of_int 1) (Row (frac 5 4) (of_int 1) (of_int 8) fzero)).
  - repeat constructor.
  - simpl. lia.
  - simpl. lia.
  - vm_compute. reflexivity.
  - vm_compute. right. left. reflexivity.
Defined.

(** the rows at 0.75 and 1.25 are both 0.25 away from the cell at 1.0: the
    cell gets the energy of the first *)
Example update_pmf_tie :
  reduced_rows (frac 1 2) (frac 1 2) wham_tie (of_int 1) (of_int 1) = wham_tie
  ∧ (update_pmf lambdas_half (frac 1 2) (frac 1 2) wham_tie pmf_3x3).2 !! 2%nat
    = Some [PInf; PInf; of_int 7].
Proof. vm_compute. split; reflexivity. Qed.

Lemma grid_ext {A : Type} (a b : grid A) (n m : nat) :
  has_shape a n m → has_shape b n m →
  (∀ ix iy, (ix < n)%nat → (iy < m)%nat → getitem a ix iy = getitem b ix iy) →
  a = b.
Proof.
  intros [Han Ham] [Hbn Hbm] Hcells. apply list_eq. intros i.
  destruct (decide (i < n)%nat) as [Hi|Hi].
  - destruct (lookup_lt_is_Some_2 a i) as [ra Hra]; [lia|].
    destruct (lookup_lt_is_Some_2 b i) as [rb Hrb]; [lia|].
    rewrite Hra, Hrb. f_equal.
    assert (length ra = m) as Hla.
    { rewrite Forall_forall in Ham. apply Ham. eapply list_elem_of_lookup_2, Hra. }
    assert (length rb = m) as Hlb.
    { rewrite Forall_forall in Hbm. apply Hbm. eapply list_elem_of_lookup_2, Hrb. }
    apply list_eq. intros j. destruct (decide (j < m)%nat) as [Hj|Hj].
    + specialize (Hcells i j Hi Hj). unfold getitem in Hcells.
      rewrite Hra, Hrb in Hcells. exact Hcells.
    + rewrite !lookup_ge_None_2 by lia. reflexivity.
  - rewrite !lookup_ge_None_2 by lia. reflexivity.
Qed.

Lemma has_shape_shape {A : Type} (a : grid A) (n m : nat) :
  has_shape a n m → (n = 0 → m = 0)%nat → shape a = (n, m) ∧ rectangular a.
Proof.
  intros [Hn Hm] H0. assert (shape a = (n, m)) as Hs.
  { unfold shape. rewrite Hn. f_equal. destruct a as [|r a].
    - simpl in Hn. symmetry. apply H0. congruence.
    - inversion Hm. assumption. }
  split; [exact Hs|]. unfold rectangular. rewrite Hs. exact Hm.
Qed.

Lemma shape_empty {A : Type} (a : grid A) : (shape a).1 = 0%nat → (shape a).2 = 0%nat.
Proof. destruct a; [reflexivity | discriminate]. Qed.

Lemma update_pmf_ext (get_lambdas_for_index : nat * nat → num * num) (step_x step_y : num)
    (wham_pmf : frame) (pmf1 pmf2 : grid num) :
  rectangular pmf1 → rectangular pmf2 → shape pmf1 = shape pmf2 →
  update_pmf get_lambdas_for_index step_x step_y wham_pmf pmf1 =
  update_pmf get_lambdas_for_index step_x step_y wham_pmf pmf2.
Proof.
  intros H1 H2 Hs.
  destruct (update_pmf_cells get_lambdas_for_index step_x step_y wham_pmf pmf1 H1)
    as (p1 & -> & Hs1 & Hc1).
  destruct (update_pmf_cells get_lambdas_for_index step_x step_y wham_pmf pmf2 H2)
    as (p2 & -> & Hs2 & Hc2).
  rewrite <- Hs in Hs2, Hc2. f_equal.
  apply (grid_ext p1 p2 _ _ Hs1 Hs2). intros ix iy Hx Hy.
  destruct (Hc1 ix iy Hx Hy) as (v1 & Hv1 & ->).
  destruct (Hc2 ix iy Hx Hy) as (v2 & Hv2 & ->). congruence.
Qed.

(** X2.  On an array, [update_pmf] raises nothing and gives back an array
    of the same shape. *)
Theorem update_pmf_keeps_shape (get_lambdas_for_index : nat * nat → num * num)
    (step_x step_y : num) (wham_pmf : frame) (pmf : grid num) :
  rectangular pmf →
  ∃ pmf', update_pmf get_lambdas_for_index step_x step_y wham_pmf pmf = (Ret tt, pmf')
          ∧ shape pmf' = shape pmf ∧ rectangular pmf'.
Proof.
  intros Hrect.
  destruct (update_pmf_cells get_lambdas_for_index step_x step_y wham_pmf pmf Hrect)
    as (pmf' & Hrun & Hs & _).
  exists pmf'. split; [exact Hrun|].
  destruct (has_shape_shape pmf' _ _ Hs (shape_empty pmf)) as [E Hr].
  split; [|exact Hr]. rewrite E. destruct (shape pmf); reflexivity.
Qed.

Lemma update_pmf_keeps_shape_witness :
  ∃ pmf', update_pmf lambdas_half (frac 1 2) (frac 1 2) wham_two_rows pmf_3x3 = (Ret tt, pmf')
          ∧ shape pmf' = shape pmf_3x3 ∧ rectangular pmf'.
Proof.
  apply (update_pmf_keeps_shape lambdas_half (frac 1 2) (frac 1 2) wham_two_rows pmf_3x3).
  repeat constructor.
Defined.

(** X3.  [update_pmf] overwrites every cell: what it leaves depends on the
    shape of the PMF grid only, not on what the grid held. *)
Theorem update_pmf_overwrites (get_lambdas_for_index : nat * nat → num * num)
    (step_x step_y : num) (wham_pmf : frame) (pmf1 pmf2 : grid num) :
  rectangular pmf1 → rectangular pmf2 → shape pmf1 = shape pmf2 →
  update_pmf get_lambdas_for_index step_x step_y wham_pmf pmf1 =
  update_pmf get_lambdas_for_index step_x step_y wham_pmf pmf2.
Proof. apply update_pmf_ext. Qed.

Lemma update_pmf_overwrites_witness :
  update_pmf lambdas_half (frac 1 2) (frac 1 2) wham_two_rows pmf_3x3 =
  update_pmf lambdas_half (frac 1 2) (frac 1 2) wham_two_rows
    [[NaN; PInf; of_int 4]; [of_int 1; of_int 2; of_int 3]; [NInf; NInf; NInf]].
Proof.
  apply (update_pmf_overwrites lambdas_half (frac 1 2) (frac 1 2) wham_two_rows pmf_3x3
           [[NaN; PInf; of_int 4]; [of_int 1; of_int 2; of_int 3]; [NInf; NInf; NInf]]).
  - repeat constructor.
  - repeat constructor.
  - reflexivity.
Defined.

(** X4.  [update_pmf] is idempotent: projecting the same table again onto
    the grid it produced changes nothing. *)
Theorem update_pmf_idempotent (get_lambdas_for_index : nat * nat → num * num)
    (step_x step_y : num) (wham_pmf : frame) (pmf pmf' : grid num) :
  rectangular pmf →
  update_pmf get_lambdas_for_index step_x step_y wham_pmf pmf = (Ret tt, pmf') →
  update_pmf get_lambdas_for_index step_x step_y wham_pmf pmf' = (Ret tt, pmf').
Proof.
  intros Hrect Hrun.
  destruct (update_pmf_cells get_lambdas_for_index step_x step_y wham_pmf pmf Hrect)
    as (p & Hp & Hs & _).
  assert (p = pmf') as -> by congruence.
  destruct (has_shape_shape pmf' _ _ Hs (shape_empty pmf)) as [E Hr].
  rewrite <- Hrun. apply update_pmf_ext; [exact Hr | exact Hrect |].
  rewrite E. destruct (shape pmf); reflexivity.
Qed.

Lemma update_pmf_idempotent_witness :
  update_pmf lambdas_half (frac 1 2) (frac 1 2) wham_two_rows
    pmf_two_rows
  = (Ret tt, pmf_two_rows).
Proof.
  apply (update_pmf_idempotent lambdas_half (frac 1 2) (frac 1 2) wham_two_rows pmf_3x3).
  - repeat constructor.
  - reflexivity.
Defined.

(** a number below a step in absolute value: the step is positive *)
Lemma below_step_positive (v s : num) : fltb (fabs v) s = true → fltb fzero s = true.
Proof.
  unfold fltb, SFltb, SFcompare.
  destruct v as [sv|sv| |sv m e], s as [[]|[]| |[] ms es]; simpl;
    try (intros; discriminate); try reflexivity.
Qed.

Lemma no_window_nonpositive_step (step_x step_y : num) (wham_pmf : frame)
    (lambdax lambday : num) :
  fltb fzero step_x = false ∨ fltb fzero step_y = false →
  reduced_rows step_x step_y wham_pmf lambdax lambday = [].
Proof.
  intros Hstep.
  destruct (reduced_rows step_x step_y wham_pmf lambdax lambday) as [|r l] eqn:E;
    [reflexivity|]. exfalso.
  assert (In r (reduced_rows step_x step_y wham_pmf lambdax lambday)) as Hr
    by (rewrite E; now left).
  apply In_reduced_rows in Hr. destruct Hr as (_ & Hx & Hy).
  apply below_step_positive in Hx, Hy. destruct Hstep; congruence.
Qed.

(** X5.  A lambda step that is not positive (zero, negative or NaN) leaves
    no window: every cell of the PMF grid becomes plus-infinity, whatever
    the table holds. *)
Theorem update_pmf_nonpositive_step (get_lambdas_for_index : nat * nat → num * num)
    (step_x step_y : num) (wham_pmf : frame) (pmf : grid num) :
  fltb fzero step_x = false ∨ fltb fzero step_y = false → rectangular pmf →
  ∃ pmf', update_pmf get_lambdas_for_index step_x step_y wham_pmf pmf = (Ret tt, pmf')
          ∧ ∀ ix iy, (ix < (shape pmf).1)%nat → (iy < (shape pmf).2)%nat →
              getitem pmf' ix iy = Some PInf.
Proof.
  intros Hstep Hrect.
  destruct (update_pmf_cells get_lambdas_for_index step_x step_y wham_pmf pmf Hrect)
    as (pmf' & Hrun & _ & Hcells).
  exists pmf'. split; [exact Hrun|]. intros ix iy Hx Hy.
  destruct (Hcells ix iy Hx Hy) as (v & Hv & Hget).
  destruct (get_lambdas_for_index (ix, iy)) as [lambdax lambday] eqn:Hl.
  rewrite (cell_value_unmatched get_lambdas_for_index step_x step_y wham_pmf ix iy
             lambdax lambday Hl) in Hv
    by (apply no_window_nonpositive_step, Hstep).
  congruence.
Qed.

Lemma update_pmf_nonpositive_step_witness :
  ∃ pmf', update_pmf lambdas_half fzero (frac 1 2) wham_two_rows pmf_3x3 = (Ret tt, pmf')
          ∧ ∀ ix iy, (ix < 3)%nat → (iy < 3)%nat → getitem pmf' ix iy = Some PInf.
Proof.
  apply (update_pmf_nonpositive_step lambdas_half fzero (frac 1 2) wham_two_rows pmf_3x3).
  - left. reflexivity.
  - repeat constructor.
Defined.

Lemma feqb_sym (a b : num) : feqb a b = true → feqb b a = true.
Proof. intros H. apply feqb_fleb in H. destruct H. now apply fleb_antisym. Qed.

(** the difference of a finite number and itself is a zero *)
Lemma fsub_same (a b : num) :
  feqb a b = true → isfinite b = true → ∃ s, fsub a b = S754_zero s.
Proof.
  intros H Hb. apply feqb_eq in H. destruct H as [->|(s & s' & -> & ->)].
  - destruct b as [s|s| |s m e]; try discriminate.
    + exists false. destruct s; reflexivity.
    + exists false. unfold fsub, SFsub. rewrite Z.sub_diag. reflexivity.
  - destruct s, s'; eauto.
Qed.

Lemma linalg_norm_zero (s s' : bool) : linalg_norm (S754_zero s) (S754_zero s') = fzero.
Proof. destruct s, s'; reflexivity. Qed.

(** a number that is not negative and at most zero is zero *)
Lemma nonneg_le_zero (a : num) : has_sign false a = true → fleb a fzero = true → a = fzero.
Proof. destruct a as [[]|[]| |[] m e]; simpl; try discriminate; reflexivity. Qed.

Lemma feqb_same_class (a b d : num) : feqb a b = true → feqb d a = feqb d b.
Proof.
  intros H. destruct (feqb d a) eqn:Ea, (feqb d b) eqn:Eb; try reflexivity.
  - rewrite (feqb_trans _ _ _ Ea H) in Eb. discriminate.
  - rewrite (feqb_trans _ _ _ Eb (feqb_sym _ _ H)) in Ea. discriminate.
Qed.

Lemma find_ext {A : Type} (p q : A → bool) (l : list A) :
  (∀ a, p a = q a) → find p l = find q l.
Proof.
  intros H. induction l as [|a l IH]; simpl; [reflexivity|]. rewrite H, IH. reflexivity.
Qed.

(** X6.  When the lambda steps are positive and the table has a row whose
    [(x, y)] is the coordinate of a cell, the least computed distance of
    the cell is zero, and the cell holds the energy of the first row of its
    window whose computed distance is zero.  That row need not be on the
    coordinate: a distance whose squares underflow is zero as well. *)
Theorem update_pmf_exact_hit (get_lambdas_for_index : nat * nat → num * num)
    (step_x step_y : num) (wham_pmf : frame) (pmf : grid num) (ix iy : nat)
    (lambdax lambday : num) (r : row) :
  rectangular pmf → (ix < (shape pmf).1)%nat → (iy < (shape pmf).2)%nat →
  get_lambdas_for_index (ix, iy) = (lambdax, lambday) →
  isfinite lambdax = true → isfinite lambday = true →
  fltb fzero step_x = true → fltb fzero step_y = true →
  In r wham_pmf → feqb (x r) lambdax = true → feqb (y r) lambday = true →
  let reduced := reduced_rows step_x step_y wham_pmf lambdax lambday in
  ∃ pmf' r0,
    update_pmf get_lambdas_for_index step_x step_y wham_pmf pmf = (Ret tt, pmf')
    ∧ In r reduced
    ∧ dist_of lambdax lambday r = fzero
    ∧ find (λ r, feqb (dist_of lambdax lambday r) fzero) reduced = Some r0
    ∧ getitem pmf' ix iy = Some (e r0).
Proof.
  intros Hrect Hx Hy Hl Hfx Hfy Hsx Hsy Hin Ex Ey reduced.
  assert (In r reduced) as Hr.
  { apply In_reduced_rows. split; [exact Hin|].
    destruct (fsub_same _ _ Ex Hfx) as [s ->], (fsub_same _ _ Ey Hfy) as [s' ->].
    split; assumption. }
  assert (dist_of lambdax lambday r = fzero) as Hd.
  { destruct (reduced_finite step_x step_y _ _ _ _ Hr) as [Hrx Hry].
    unfold dist_of.
    destruct (fsub_same _ _ (feqb_sym _ _ Ex) Hrx) as [s ->].
    destruct (fsub_same _ _ (feqb_sym _ _ Ey) Hry) as [s' ->].
    apply linalg_norm_zero. }
  destruct (update_pmf_cells get_lambdas_for_index step_x step_y wham_pmf pmf Hrect)
    as (pmf' & Hrun & _ & Hcells).
  destruct (Hcells ix iy Hx Hy) as (v & Hv & Hget).
  destruct (cell_value_nearest get_lambdas_for_index step_x step_y wham_pmf ix iy
              lambdax lambday Hl) as (r0 & r1 & Hf0 & _ & Hv1 & -> & Hin0 & Hmin).
  { intros Hnil. fold reduced in Hnil. rewrite Hnil in Hr. exact Hr. }
  fold reduced in Hf0, Hin0, Hmin.
  assert (dist_of lambdax lambday r0 = fzero) as Hd0.
  { apply nonneg_le_zero; [eapply (reduced_dist step_x step_y), Hin0|].
    rewrite <- Hd. apply Hmin, Hr. }
  exists pmf', r0. split; [exact Hrun|]. split; [exact Hr|]. split; [exact Hd|].
  split; [|congruence].
  rewrite <- Hf0. apply find_ext. intros a. symmetry. apply feqb_same_class.
  pose proof (find_some _ _ Hf0) as [_ H0]. cbv beta in H0. rewrite Hd0 in H0.
  apply feqb_sym, H0.
Qed.

(** the cell at (1.0, 1.0): the row at (0.9, 1.0) comes first but is
    farther than the rows on the grid point *)
Lemma update_pmf_exact_hit_witness :
  ∃ pmf' r0,
    update_pmf lambdas_half (frac 1 2) (frac 1 2) wham_exact pmf_3x3 = (Ret tt, pmf')
    ∧ In (Row (of_int 1) (of_int 1) (of_int 6) fzero)
         (reduced_rows (frac 1 2) (frac 1 2) wham_exact (of_int 1) (of_int 1))
    ∧ dist_of (of_int 1) (of_int 1) (Row (of_int 1) (of_int 1) (of_int 6) fzero) = fzero
    ∧ find (λ r, feqb (dist_of (of_int 1) (of_int 1) r) fzero)
        (reduced_rows (frac 1 2) (frac 1 2) wham_exact (of_int 1) (of_int 1)) = Some r0
    ∧ getitem pmf' 2 2 = Some (e r0).
Proof.
  apply (update_pmf_exact_hit lambdas_half (frac 1 2) (frac 1 2) wham_exact pmf_3x3 2 2
           (of_int 1) (of_int 1) (Row (of_int 1) (of_int 1) (of_int 6) fzero)).
  - repeat constructor.
  - simpl. lia.
  - simpl. lia.
  - vm_compute. reflexivity.
  - reflexivity.
  - reflexivity.
  - reflexivity.
  - reflexivity.
  - simpl. auto.
  - vm_compute. reflexivity.
  - vm_compute. reflexivity.
Defined.

(** on that table the cell gets the energy of the first row on the grid
    point; with a row that is 2^-600 beside the grid point (0, 0) and comes
    first, the cell gets the energy of that row, whose squared offset
    underflows to zero *)
Example update_pmf_exact_hit_first :
  getitem (update_pmf lambdas_half (frac 1 2) (frac 1 2) wham_exact pmf_3x3).2 2 2
  = Some (of_int 5)
  ∧ getitem (update_pmf lambdas_half (frac 1 2) (frac 1 2)
               [Row (frac 1 (2 ^ 600)) fzero (of_int 7) fzero;
                Row fzero fzero (of_int 5) fzero] pmf_3x3).2 0 0
    = Some (of_int 7).
Proof. vm_compute. split; reflexivity. Qed.

(** X7.  [update_pmf] writes nothing of its own: after it, a cell holds
    plus-infinity, its window being empty, or the energy of a row of the
    table that lies in its window. *)
Theorem update_pmf_values_from_table (get_lambdas_for_index : nat * nat → num * num)
    (step_x step_y : num) (wham_pmf : frame) (pmf : grid num) :
  rectangular pmf →
  ∃ pmf', update_pmf get_lambdas_for_index step_x step_y wham_pmf pmf = (Ret tt, pmf')
          ∧ ∀ ix iy, (ix < (shape pmf).1)%nat → (iy < (shape pmf).2)%nat →
              let window := window step_x step_y (get_lambdas_for_index (ix, iy)).1
                              (get_lambdas_for_index (ix, iy)).2 in
              (getitem pmf' ix iy = Some PInf ∧ ∀ r, In r wham_pmf → window r = false)
              ∨ ∃ r, In r wham_pmf ∧ window r = true ∧ getitem pmf' ix iy = Some (e r).
Proof.
  intros Hrect.
  destruct (update_pmf_cells get_lambdas_for_index step_x step_y wham_pmf pmf Hrect)
    as (pmf' & Hrun & _ & Hcells).
  exists pmf'. split; [exact Hrun|]. intros ix iy Hx Hy window.
  destruct (Hcells ix iy Hx Hy) as (v & Hv & ->).
  destruct (get_lambdas_for_index (ix, iy)) as [lambdax lambday] eqn:Hl.
  simpl in window.
  destruct (reduced_rows step_x step_y wham_pmf lambdax lambday) as [|a l] eqn:Hred.
  - left. rewrite (cell_value_unmatched get_lambdas_for_index step_x step_y wham_pmf
                     ix iy lambdax lambday Hl Hred) in Hv.
    split; [congruence|]. intros r Hr. destruct (window r) eqn:Hw; [|reflexivity].
    exfalso. assert (In r (reduced_rows step_x step_y wham_pmf lambdax lambday)) as Hin
      by (apply filter_In; split; assumption).
    rewrite Hred in Hin. exact Hin.
  - right.
    destruct (cell_value_nearest get_lambdas_for_index step_x step_y wham_pmf ix iy
                lambdax lambday Hl) as (r0 & r1 & _ & _ & Hv1 & _ & Hin & _).
    { rewrite Hred. discriminate. }
    apply filter_In in Hin. destruct Hin as [Hin Hw].
    exists r1. split; [exact Hin|]. split; [exact Hw | congruence].
Qed.

Lemma update_pmf_values_from_table_witness :
  ∃ pmf', update_pmf lambdas_half (frac 1 2) (frac 1 2) wham_two_rows pmf_3x3 = (Ret tt, pmf')
          ∧ ∀ ix iy, (ix < 3)%nat → (iy < 3)%nat →
              let window := window (frac 1 2) (frac 1 2) (lambdas_half (ix, iy)).1
                              (lambdas_half (ix, iy)).2 in
              (getitem pmf' ix iy = Some PInf ∧ ∀ r, In r wham_two_rows → window r = false)
              ∨ ∃ r, In r wham_two_rows ∧ window r = true
                     ∧ getitem pmf' ix iy = Some (e r).
Proof.
  apply (update_pmf_values_from_table lambdas_half (frac 1 2) (frac 1 2) wham_two_rows pmf_3x3).
  repeat constructor.
Defined.

(** * Further properties of the boundary calculator *)

(** X8.  When exactly one cell of the sample grid is not zero, the rectangle
    of [get_wham_borders] is the coordinate of that cell, moved out by two
    lambda steps on every side, each product, difference and sum rounded. *)
Theorem get_wham_borders_one_cell (get_lambdas_for_index : nat * nat → num * num)
    (self : runner) (ix iy : nat) (lambdax lambday : num) :
  (∀ jx jy, sampled (sample_list self) jx jy ↔ (jx, jy) = (ix, iy)) →
  get_lambdas_for_index (ix, iy) = (lambdax, lambday) →
  get_wham_borders get_lambdas_for_index self =
  Ret [fsub lambdax (fmul (of_int 2) (cv_step (cvs self).1));
       fsub lambday (fmul (of_int 2) (cv_step (cvs self).2));
       fadd lambdax (fmul (of_int 2) (cv_step (cvs self).1));
       fadd lambday (fmul (of_int 2) (cv_step (cvs self).2))].
Proof.
  intros Honly Hl.
  destruct (bounding_box (sample_list self) ix iy) as
    (min0 & min1 & max0 & max1 & Hmin0 & Hmin1 & Hmax0 & Hmax1
     & (a0 & Ha0) & (a1 & Ha1) & (a2 & Ha2) & (a3 & Ha3) & _).
  { apply Honly. reflexivity. }
  apply Honly in Ha0, Ha1, Ha2, Ha3.
  injection Ha0 as -> _. injection Ha1 as _ ->. injection Ha2 as -> _. injection Ha3 as _ ->.
  unfold get_wham_borders. rewrite Hmin0, Hmin1, Hmax0, Hmax1. simpl.
  rewrite Hl. reflexivity.
Qed.

Lemma get_wham_borders_one_cell_witness :
  get_wham_borders lambdas_half (demo_runner false sampled_once) =
  Ret [frac (-1) 2; frac (-1) 2; frac 3 2; frac 3 2].
Proof.
  apply (get_wham_borders_one_cell lambdas_half (demo_runner false sampled_once) 1 1
           (frac 1 2) (frac 1 2)).
  - intros jx jy. split.
    + intros (c & Hc & Hne).
      destruct jx as [|[|[|jx]]], jy as [|[|[|jy]]]; cbv in Hc; try discriminate;
        try reflexivity; injection Hc as <-; contradiction.
    + intros [= -> ->]. exists 3%Z. split; [reflexivity | lia].
  - reflexivity.
Defined.

(** * Further properties of the output loader *)

Lemma replace_inf_not_inf (v : num) : isinf (replace_inf v) = false.
Proof. destruct v; reflexivity. Qed.

Lemma loaded_row_after_cleaning (df : frame) (r : row) :
  In r (dropna_e (map replace_inf_row df)) → loaded_row r = true.
Proof.
  unfold dropna_e. rewrite filter_In, in_map_iff.
  intros [(r' & <- & _) Hnan]. unfold loaded_row. simpl in *.
  rewrite !replace_inf_not_inf. simpl. rewrite !andb_true_r.
  destruct (e r'); simpl in *; congruence.
Qed.

Lemma cleaning_loaded (df : frame) :
  Forall (λ r, loaded_row r = true) df → dropna_e (map replace_inf_row df) = df.
Proof.
  unfold dropna_e. induction 1 as [|r df Hr _ IH]; [reflexivity|].
  cbn [map List.filter]. rewrite IH.
  assert (replace_inf_row r = r ∧ isnan (e r) = false) as [-> ->]; [|reflexivity].
  unfold loaded_row in Hr. destruct r as [rx ry re rp]. simpl in *.
  apply andb_true_iff in Hr. destruct Hr as [Hr Hp].
  apply andb_true_iff in Hr. destruct Hr as [Hr Hy].
  apply andb_true_iff in Hr. destruct Hr as [He Hx].
  apply negb_true_iff in Hx, Hy, Hp.
  unfold replace_inf_row. simpl.
  rewrite (replace_inf_id rx Hx), (replace_inf_id ry Hy), (replace_inf_id rp Hp).
  destruct re; try discriminate; split; reflexivity.
Qed.

(** X9.  What [load_wham_pmf] returns is clean: every row has a finite
    energy and no infinite value, and cleaning it again changes nothing.
    Loading changes no file. *)
Theorem load_wham_pmf_rows_are_clean (read_csv : string → option (list row))
    (wham_file : string) (w w' : world) (out : frame) :
  load_wham_pmf read_csv wham_file w = (Ret out, w') →
  Forall (λ r, isfinite (e r) = true ∧ isinf (x r) = false
               ∧ isinf (y r) = false ∧ isinf (pro r) = false) out
  ∧ dropna_e (map replace_inf_row out) = out
  ∧ fs w' = fs w.
Proof.
  unfold load_wham_pmf. destruct (fs w !! wham_file) as [text|]; [|discriminate].
  destruct (read_csv text) as [df|]; [|discriminate].
  intros [= <- <-].
  assert (Forall (λ r, loaded_row r = true) (dropna_e (map replace_inf_row df))) as H.
  { apply Forall_forall. intros r Hr. apply list_elem_of_In in Hr.
    eapply loaded_row_after_cleaning, Hr. }
  split; [|split; [apply cleaning_loaded, H | reflexivity]].
  eapply Forall_impl; [exact H|]. intros r Hr. unfold loaded_row in Hr.
  apply andb_true_iff in Hr. destruct Hr as [Hr Hp].
  apply andb_true_iff in Hr. destruct Hr as [Hr Hy].
  apply andb_true_iff in Hr. destruct Hr as [He Hx].
  apply negb_true_iff in Hx, Hy, Hp. auto.
Qed.

Lemma load_wham_pmf_rows_are_clean_witness :
  let out := [Row ((frac 1 10)) ((frac 2 10)) ((frac (-3) 2)) NaN] in
  Forall (λ r, isfinite (e r) = true ∧ isinf (x r) = false
               ∧ isinf (y r) = false ∧ isinf (pro r) = false) out
  ∧ dropna_e (map replace_inf_row out) = out
  ∧ fs (World {["out.dat" := ""]} [Read "out.dat"]) = fs (World {["out.dat" := ""]} []).
Proof.
  apply (load_wham_pmf_rows_are_clean
           (λ _, Some [Row ((frac 1 10)) ((frac 2 10)) NInf (of_int 0);
                       Row ((frac 1 10)) ((frac 2 10)) ((frac (-3) 2)) PInf;
                       Row NaN NaN NaN NaN])
           "out.dat" (World {["out.dat" := ""]} [])).
  reflexivity.
Defined.

(** * Further properties of the metadata writer *)

(** X10.  With [verbose] set, the manifest holds, in order, one line for
    each sampled pair whose data file exists when the pair is reached, and
    nothing else; each pair whose data file is missing is reported on the
    console. *)
Theorem manifest_when_verbose (get_sampled_lambdas : runner → list (num * num))
    (str_float : num → string) (self : runner) (w : world) :
  verbose self = true →
  let files := <[metadata_path self := ""]> (fs w) in
  let found l := bool_decide (is_Some (files !! colvar_file str_float self l)) in
  create_metadata_file get_sampled_lambdas str_float self w =
  (Ret (metadata_path self),
   World (<[metadata_path self :=
              text_of (map (metadata_line str_float self)
                         (List.filter found (get_sampled_lambdas self)))]> (fs w))
         (trace w ++ map (λ l, Print ("Not found: " +:+ colvar_file str_float self l))
                       (List.filter (λ l, negb (found l)) (get_sampled_lambdas self)))).
Proof. apply create_metadata_file_verbose. Qed.

Lemma manifest_when_verbose_witness :
  let self := demo_runner true [[0; 5; 0]; [0; 3; 0]; [0; 0; 0]]%Z in
  let w := World {["tmp/simulations/umb_1:2_1:2/COLVAR" := "data"]} [] in
  create_metadata_file demo_sampled_lambdas str_fraction self w =
  (Ret "tmp/WHAM/0_metadata.dat",
   World (<["tmp/WHAM/0_metadata.dat" :=
              metadata_line str_fraction self (frac 1 2, frac 1 2)]> (fs w))
         [Print "Not found: tmp/simulations/umb_0:1_1:2/COLVAR"]).
Proof.
  intros self w.
  exact (manifest_when_verbose demo_sampled_lambdas str_fraction self w eq_refl).
Defined.

(** X11.  Without [verbose], the manifest holds one line for every sampled
    pair, in order, whether or not its data file exists, and nothing is
    printed. *)
Theorem manifest_when_quiet (get_sampled_lambdas : runner → list (num * num))
    (str_float : num → string) (self : runner) (w : world) :
  verbose self = false →
  create_metadata_file get_sampled_lambdas str_float self w =
  (Ret (metadata_path self),
   World (<[metadata_path self :=
              text_of (map (metadata_line str_float self) (get_sampled_lambdas self))]> (fs w))
         (trace w)).
Proof. apply create_metadata_file_quiet. Qed.

Lemma manifest_when_quiet_witness :
  let self := demo_runner false [[0; 5; 0]; [0; 3; 0]; [0; 0; 0]]%Z in
  let w := World {["tmp/simulations/umb_1:2_1:2/COLVAR" := "data"]} [] in
  create_metadata_file demo_sampled_lambdas str_fraction self w =
  (Ret "tmp/WHAM/0_metadata.dat",
   World (<["tmp/WHAM/0_metadata.dat" :=
              metadata_line str_fraction self (fzero, frac 1 2)
              +:+ metadata_line str_fraction self (frac 1 2, frac 1 2)]> (fs w))
         []).
Proof.
  intros self w.
  exact (manifest_when_quiet demo_sampled_lambdas str_fraction self w eq_refl).
Defined.

(** X12.  [create_metadata_file] changes no file but the manifest, runs no
    command and reads no file.  The manifest is replaced, not extended:
    what a manifest that is already there holds has no effect on the
    outcome. *)
Theorem create_metadata_file_only_manifest (get_sampled_lambdas : runner → list (num * num))
    (str_float : num → string) (self : runner) (w : world) (old old' : string) :
  let create := create_metadata_file get_sampled_lambdas str_float self in
  let with_manifest text := World (<[metadata_path self := text]> (fs w)) (trace w) in
  (∀ p, p ≠ metadata_path self → fs (create w).2 !! p = fs w !! p)
  ∧ calls (trace (create w).2) = calls (trace w)
  ∧ reads (trace (create w).2) = reads (trace w)
  ∧ create (with_manifest old) = create (with_manifest old').
Proof.
  intros create with_manifest. unfold create, with_manifest.
  rewrite !create_metadata_file_spec. cbn [fst snd fs trace].
  split; [intros p Hp; apply lookup_insert_ne; congruence|].
  split; [rewrite calls_app, calls_not_found; apply app_nil_r|].
  split; [rewrite reads_app, reads_not_found; apply app_nil_r|].
  rewrite !insert_insert_eq. reflexivity.
Qed.

(** ** The file names of an iteration *)

Lemma string_length_app (a b : string) :
  String.length (a +:+ b) = (String.length a + String.length b)%nat.
Proof.
  induction a as [|c a IH]; [reflexivity|].
  change (S (String.length (a +:+ b)) = S (String.length a + String.length b)).
  f_equal. exact IH.
Qed.

Lemma string_app_inv_tail (a b s : string) : a +:+ s = b +:+ s → a = b.
Proof.
  revert b. induction a as [|c a IH]; intros [|c' b] H.
  - reflexivity.
  - apply (f_equal String.length) in H. change ("" +:+ s) with s in H.
    rewrite string_length_app in H.
    change (String.length (String c' b)) with (S (String.length b)) in H. lia.
  - apply (f_equal String.length) in H. change ("" +:+ s) with s in H.
    rewrite string_length_app in H.
    change (String.length (String c a)) with (S (String.length a)) in H. lia.
  - change (String c (a +:+ s) = String c' (b +:+ s)) in H.
    injection H as -> H. f_equal. apply IH, H.
Qed.

Lemma starts_with_sep_app (s t : string) :
  s ≠ "" → starts_with_sep (s +:+ t) = starts_with_sep s.
Proof. destruct s; [congruence | reflexivity]. Qed.

Lemma pretty_N_char_no_sep (x : N) (s : string) :
  starts_with_sep (String (pretty_N_char x) s) = false.
Proof. unfold pretty_N_char. repeat case_match; reflexivity. Qed.

Lemma pretty_N_go_no_sep (x : N) (s : string) :
  s ≠ "" → starts_with_sep s = false →
  pretty_N_go x s ≠ "" ∧ starts_with_sep (pretty_N_go x s) = false.
Proof.
  revert s. induction (N.lt_wf_0 x) as [x _ IH]; intros s Hne Hs.
  assert (x = 0 ∨ 0 < x)%N as [->|Hx] by lia.
  - rewrite pretty_N_go_0. auto.
  - rewrite pretty_N_go_step by exact Hx. apply IH.
    + apply N.div_lt; [exact Hx | reflexivity].
    + discriminate.
    + apply pretty_N_char_no_sep.
Qed.

Lemma pretty_nat_no_sep (n : nat) (t : string) :
  starts_with_sep (pretty n +:+ t) = false.
Proof.
  unfold pretty, pretty_nat, pretty, pretty_N.
  destruct (decide (N.of_nat n = 0%N)) as [_|Hn]; [reflexivity|].
  rewrite pretty_N_go_step by lia.
  destruct (pretty_N_go_no_sep (N.of_nat n `div` 10)
              (String (pretty_N_char (N.of_nat n `mod` 10)) "")) as [Hne Hs].
  - discriminate.
  - apply pretty_N_char_no_sep.
  - rewrite starts_with_sep_app by exact Hne. exact Hs.
Qed.

Lemma join2_pretty_inj (a : string) (n m : nat) (s1 s2 : string) :
  join2 a (pretty n +:+ s1) = join2 a (pretty m +:+ s2) →
  pretty n +:+ s1 = pretty m +:+ s2.
Proof.
  unfold join2. rewrite !pretty_nat_no_sep.
  destruct (String.eqb a "" || ends_with_sep a)%bool; intros H.
  - eapply String.app_inj, H.
  - eapply String.app_inj, String.app_inj, H.
Qed.

Lemma string_to_list_app (a b : string) :
  String.list_ascii_of_string (a +:+ b) = String.list_ascii_of_string a ++ String.list_ascii_of_string b.
Proof.
  induction a as [|c a IH]; [reflexivity|].
  change (c :: String.list_ascii_of_string (a +:+ b)
          = c :: (String.list_ascii_of_string a ++ String.list_ascii_of_string b)).
  f_equal. exact IH.
Qed.

Lemma suffixes_differ (a b : string) :
  a +:+ "_metadata.dat" ≠ b +:+ "_freeenergy.dat".
Proof.
  intros H. apply (f_equal String.list_ascii_of_string) in H.
  rewrite !string_to_list_app in H. apply (f_equal (@rev ascii)) in H.
  rewrite !rev_app_distr in H. apply (f_equal (firstn 5)) in H.
  rewrite !firstn_app in H. simpl in H. discriminate.
Qed.

(** X13.  The file names keep iterations and kinds apart: the manifest of
    one iteration is never the solver output of any iteration, and two
    iterations share neither their manifest nor their solver output. *)
Theorem iteration_files_distinct (self : runner) (n m : nat) :
  metadata_path (at_iteration n self) ≠ get_wham_output_file (at_iteration m self)
  ∧ (metadata_path (at_iteration n self) = metadata_path (at_iteration m self) → n = m)
  ∧ (get_wham_output_file (at_iteration n self) = get_wham_output_file (at_iteration m self)
     → n = m).
Proof.
  unfold metadata_path, get_wham_output_file, path_join. simpl.
  split; [|split]; intros H; apply join2_pretty_inj in H.
  - exact (suffixes_differ _ _ H).
  - apply string_app_inv_tail in H. apply (inj pretty), H.
  - apply string_app_inv_tail in H. apply (inj pretty), H.
Qed.

Lemma iteration_files_distinct_witness :
  let self := demo_runner false sampled_once in
  metadata_path (at_iteration 3 self) ≠ get_wham_output_file (at_iteration 3 self)
  ∧ (metadata_path (at_iteration 3 self) = metadata_path (at_iteration 3 self) → 3%nat = 3%nat)
  ∧ (get_wham_output_file (at_iteration 3 self) = get_wham_output_file (at_iteration 3 self)
     → 3%nat = 3%nat).
Proof.
  intros self. exact (iteration_files_distinct self 3 3).
Defined.

(** * Further properties of the solver invoker *)

(** X14.  In [run_wham2d] the [verbose] flag only decides what is printed:
    with or without it the outcome, the files left behind and the commands
    run are the same. *)
Theorem run_wham2d_verbose_only_prints (get_lambdas_for_index : nat * nat → num * num)
    (str_float : num → string) (solver : string → gmap string string → Z * gmap string string)
    (self : runner) (metafile_path output_path : string) (w : world) :
  let loud := run_wham2d get_lambdas_for_index str_float solver (with_verbose true self)
                metafile_path output_path w in
  let quiet := run_wham2d get_lambdas_for_index str_float solver (with_verbose false self)
                 metafile_path output_path w in
  loud.1 = quiet.1 ∧ fs loud.2 = fs quiet.2 ∧ calls (trace loud.2) = calls (trace quiet.2).
Proof.
  intros loud quiet. unfold loud, quiet.
  destruct (fs w !! output_path) as [text|] eqn:Hout.
  - rewrite !run_wham2d_skips by (rewrite Hout; eauto). auto.
  - rewrite !run_wham2d_invokes by exact Hout.
    change (get_wham_borders get_lambdas_for_index (with_verbose true self))
      with (get_wham_borders get_lambdas_for_index self).
    change (get_wham_borders get_lambdas_for_index (with_verbose false self))
      with (get_wham_borders get_lambdas_for_index self).
    destruct (get_wham_borders get_lambdas_for_index self) as [borders|ex]; [|auto].
    change (wham_cmd str_float (with_verbose true self) borders metafile_path output_path)
      with (wham_cmd str_float self borders metafile_path output_path).
    change (wham_cmd str_float (with_verbose false self) borders metafile_path output_path)
      with (wham_cmd str_float self borders metafile_path output_path).
    cbv zeta. cbn [verbose with_verbose].
    destruct ((solver _ (fs w)).1 =? 0)%Z; cbn [fst snd fs trace];
      rewrite !calls_app; auto.
Qed.

Lemma run_wham2d_raises_on_empty_grid (get_lambdas_for_index : nat * nat → num * num)
    (str_float : num → string) (solver : string → gmap string string → Z * gmap string string)
    (self : runner) (metafile_path output_path : string) (w : world) :
  fs w !! output_path = None →
  (∀ ix iy c, getitem (sample_list self) ix iy = Some c → c = 0%Z) →
  run_wham2d get_lambdas_for_index str_float solver self metafile_path output_path w
  = (Raise ValueError, w).
Proof.
  intros Hout Hzero. rewrite run_wham2d_invokes by exact Hout.
  assert (get_wham_borders get_lambdas_for_index self = Raise ValueError) as ->;
    [|reflexivity].
  unfold get_wham_borders, nonzero. rewrite no_cell_no_nonzero; [reflexivity|].
  intros ix iy (c & Hc & Hne). apply Hne, (Hzero ix iy c Hc).
Qed.

(** X15.  With no output file and a sample grid that is zero everywhere,
    [run_wham2d] raises ValueError before it builds a command: nothing is
    run, printed or written. *)
Theorem run_wham2d_empty_grid (get_lambdas_for_index : nat * nat → num * num)
    (str_float : num → string) (solver : string → gmap string string → Z * gmap string string)
    (self : runner) (metafile_path output_path : string) (w : world) :
  fs w !! output_path = None →
  (∀ ix iy c, getitem (sample_list self) ix iy = Some c → c = 0%Z) →
  run_wham2d get_lambdas_for_index str_float solver self metafile_path output_path w
  = (Raise ValueError, w).
Proof. apply run_wham2d_raises_on_empty_grid. Qed.

Lemma run_wham2d_empty_grid_witness :
  run_wham2d lambdas_half str_fraction solver_writes_table (demo_runner true sampled_never)
    "tmp/WHAM/0_metadata.dat" "tmp/WHAM/0_freeenergy.dat" (World ∅ [])
  = (Raise ValueError, World ∅ []).
Proof.
  apply (run_wham2d_empty_grid lambdas_half str_fraction solver_writes_table
           (demo_runner true sampled_never)).
  - reflexivity.
  - intros [|[|[|ix]]] [|[|[|iy]]] c H; cbv in H; congruence.
Defined.

Lemma run_wham2d_calls (get_lambdas_for_index : nat * nat → num * num)
    (str_float : num → string) (solver : string → gmap string string → Z * gmap string string)
    (self : runner) (metafile_path output_path : string) (w : world) :
  ∃ extra,
    calls (trace (run_wham2d get_lambdas_for_index str_float solver self
                    metafile_path output_path w).2) = calls (trace w) ++ extra
    ∧ (length extra ≤ 1)%nat.
Proof.
  destruct (fs w !! output_path) as [text|] eqn:Hout.
  - rewrite run_wham2d_skips by (rewrite Hout; eauto). exists [].
    cbn [snd trace]. rewrite calls_app. split; [reflexivity | simpl; lia].
  - rewrite run_wham2d_invokes by exact Hout.
    destruct (get_wham_borders get_lambdas_for_index self) as [borders|ex].
    + cbv zeta. eexists [_]. split; [|simpl; lia].
      destruct ((solver _ (fs w)).1 =? 0)%Z; cbn [snd trace]; rewrite !calls_app;
        destruct (verbose self); simpl; rewrite ?app_nil_r; reflexivity.
    + exists []. cbn [snd]. rewrite app_nil_r. split; [reflexivity | simpl; lia].
Qed.

(** * Further properties of the pipeline *)

Section Pipeline.

Variable get_lambdas_for_index : nat * nat → num * num.
Variable get_sampled_lambdas : runner → list (num * num).
Variable str_float : num → string.
Variable solver : string → gmap string string → Z * gmap string string.
Variable read_csv : string → option (list row).

Let calculate := calculate_new_pmf get_lambdas_for_index get_sampled_lambdas str_float
                   solver read_csv.
Let create := create_metadata_file get_sampled_lambdas str_float.
Let run := run_wham2d get_lambdas_for_index str_float solver.
Let update (self : runner) :=
  update_pmf get_lambdas_for_index (cv_step (cvs self).1) (cv_step (cvs self).2).

Lemma calculate_new_pmf_steps (self : runner) (w : world) :
  calculate self w =
  match run self (metadata_path self) (get_wham_output_file self) (create self w).2 with
  | (Raise ex, w2) => (Raise ex, self, w2)
  | (Ret _, w2) =>
      match load_wham_pmf read_csv (get_wham_output_file self) w2 with
      | (Raise ex, w3) => (Raise ex, self, w3)
      | (Ret wham_pmf, w3) =>
          match update self wham_pmf (pmf self) with
          | (Raise ex, pmf') => (Raise ex, set_pmf self pmf', w3)
          | (Ret _, pmf') => (Ret pmf', set_pmf self pmf', w3)
          end
      end
  end.
Proof.
  unfold calculate, calculate_new_pmf, create.
  rewrite create_metadata_file_spec. reflexivity.
Qed.

Lemma create_keeps_output (self : runner) (w : world) :
  fs (create self w).2 !! get_wham_output_file self = fs w !! get_wham_output_file self.
Proof.
  unfold create. rewrite create_metadata_file_spec. cbn [snd fs].
  apply lookup_insert_ne, metadata_path_ne_output.
Qed.

Lemma create_keeps_calls (self : runner) (w : world) :
  calls (trace (create self w).2) = calls (trace w)
  ∧ reads (trace (create self w).2) = reads (trace w).
Proof.
  unfold create. rewrite create_metadata_file_spec. cbn [snd trace].
  rewrite calls_app, reads_app, calls_not_found, reads_not_found, !app_nil_r. auto.
Qed.

(** what a call of [calculate_new_pmf] that returns a grid has done *)
Lemma calculate_new_pmf_Ret_inv (self self' : runner) (w w' : world) (pmf' : grid num) :
  calculate self w = (Ret pmf', self', w') →
  ∃ text df,
    fs w' !! get_wham_output_file self = Some text
    ∧ read_csv text = Some df
    ∧ update self (dropna_e (map replace_inf_row df)) (pmf self) = (Ret tt, pmf')
    ∧ self' = set_pmf self pmf'.
Proof.
  rewrite calculate_new_pmf_steps.
  destruct (run self _ _ _) as [[[]|ex] w2]; [|discriminate].
  unfold load_wham_pmf.
  destruct (fs w2 !! get_wham_output_file self) as [text|] eqn:Htext; [|discriminate].
  destruct (read_csv text) as [df|] eqn:Hparse; [|discriminate].
  destruct (update self _ (pmf self)) as [[[]|ex] p] eqn:Hup; [|discriminate].
  intros [= <- <- <-]. exists text, df. cbn [fs]. auto.
Qed.

End Pipeline.

Section PipelineProperties.

Variable get_lambdas_for_index : nat * nat → num * num.
Variable get_sampled_lambdas : runner → list (num * num).
Variable str_float : num → string.
Variable solver : string → gmap string string → Z * gmap string string.
Variable read_csv : string → option (list row).

(** X16.  With no output file and a sample grid that is zero everywhere,
    [calculate_new_pmf] raises ValueError after the manifest has been
    written: the world it leaves is the one [create_metadata_file] left, no
    command has been run and the runner is unchanged. *)
Theorem calculate_new_pmf_empty_grid (self : runner) (w : world) :
  fs w !! get_wham_output_file self = None →
  (∀ ix iy c, getitem (sample_list self) ix iy = Some c → c = 0%Z) →
  let w1 := (create_metadata_file get_sampled_lambdas str_float self w).2 in
  calculate_new_pmf get_lambdas_for_index get_sampled_lambdas str_float solver read_csv self w
  = (Raise ValueError, self, w1)
  ∧ is_Some (fs w1 !! metadata_path self)
  ∧ calls (trace w1) = calls (trace w).
Proof.
  intros Hout Hzero w1. rewrite calculate_new_pmf_steps. fold w1.
  rewrite run_wham2d_raises_on_empty_grid; [| |exact Hzero].
  - split; [reflexivity|]. unfold w1. split.
    + rewrite create_metadata_file_spec. cbn [snd fs]. rewrite lookup_insert_eq. eauto.
    + apply create_keeps_calls.
  - unfold w1. rewrite create_keeps_output. exact Hout.
Qed.

(** X17.  [run_wham2d] does not check that the solver wrote its output: when
    the solver exits with status 0 and leaves no output file,
    [calculate_new_pmf] fails in the loader with FileNotFoundError, after
    one command, and the runner is unchanged. *)
Theorem calculate_new_pmf_no_output (self : runner) (w : world) (borders : list num)
    (files' : gmap string string) :
  fs w !! get_wham_output_file self = None →
  get_wham_borders get_lambdas_for_index self = Ret borders →
  let w1 := (create_metadata_file get_sampled_lambdas str_float self w).2 in
  let cmd := wham_cmd str_float self borders (metadata_path self) (get_wham_output_file self) in
  solver cmd (fs w1) = (0%Z, files') →
  files' !! get_wham_output_file self = None →
  ∃ tr,
    calculate_new_pmf get_lambdas_for_index get_sampled_lambdas str_float solver read_csv self w
    = (Raise FileNotFoundError, self, World files' tr)
    ∧ calls tr = calls (trace w) ++ [cmd]
    ∧ reads tr = reads (trace w).
Proof.
  intros Hout Hb w1 cmd Hsolver Hnone. rewrite calculate_new_pmf_steps. fold w1.
  rewrite run_wham2d_invokes by (unfold w1; rewrite create_keeps_output; exact Hout).
  rewrite Hb. cbv zeta. fold cmd. rewrite Hsolver. cbn [fst snd Z.eqb].
  unfold load_wham_pmf. cbn [fs trace]. rewrite Hnone.
  eexists. split; [reflexivity|].
  destruct (create_keeps_calls get_sampled_lambdas str_float self w) as [Hc Hr].
  fold w1 in Hc, Hr. rewrite !calls_app, !reads_app, Hc, Hr.
  destruct (verbose self); simpl; rewrite ?app_nil_r; auto.
Qed.

(** X18.  The whole run: with no output file, a sample grid that is not
    zero everywhere, a solver that exits with status 0 and leaves an output
    file that parses, and a PMF grid that is an array, [calculate_new_pmf]
    returns the grid that [update_pmf] makes from the cleaned table; that
    grid is the runner's PMF grid afterwards; one command was run and one
    file, the output file, was read. *)
Theorem calculate_new_pmf_success (self : runner) (w : world) (borders : list num)
    (files' : gmap string string) (text : string) (df : frame) :
  fs w !! get_wham_output_file self = None →
  get_wham_borders get_lambdas_for_index self = Ret borders →
  let w1 := (create_metadata_file get_sampled_lambdas str_float self w).2 in
  let cmd := wham_cmd str_float self borders (metadata_path self) (get_wham_output_file self) in
  solver cmd (fs w1) = (0%Z, files') →
  files' !! get_wham_output_file self = Some text →
  read_csv text = Some df →
  rectangular (pmf self) →
  ∃ pmf' tr,
    calculate_new_pmf get_lambdas_for_index get_sampled_lambdas str_float solver read_csv self w
    = (Ret pmf', set_pmf self pmf', World files' tr)
    ∧ update_pmf get_lambdas_for_index (cv_step (cvs self).1) (cv_step (cvs self).2)
        (dropna_e (map replace_inf_row df)) (pmf self) = (Ret tt, pmf')
    ∧ calls tr = calls (trace w) ++ [cmd]
    ∧ reads tr = reads (trace w) ++ [get_wham_output_file self].
Proof.
  intros Hout Hb w1 cmd Hsolver Htext Hparse Hrect. rewrite calculate_new_pmf_steps. fold w1.
  rewrite run_wham2d_invokes by (unfold w1; rewrite create_keeps_output; exact Hout).
  rewrite Hb. cbv zeta. fold cmd. rewrite Hsolver. cbn [fst snd Z.eqb].
  unfold load_wham_pmf. cbn [fs trace]. rewrite Htext, Hparse.
  destruct (update_pmf_cells get_lambdas_for_index (cv_step (cvs self).1)
              (cv_step (cvs self).2) (dropna_e (map replace_inf_row df)) (pmf self) Hrect)
    as (pmf' & Hup & _).
  rewrite Hup. exists pmf'. eexists. split; [reflexivity|]. split; [reflexivity|].
  destruct (create_keeps_calls get_sampled_lambdas str_float self w) as [Hc Hr].
  fold w1 in Hc, Hr. rewrite !calls_app, !reads_app, Hc, Hr.
  destruct (verbose self); simpl; rewrite ?app_nil_r; auto.
Qed.

(** X19.  A second [calculate_new_pmf], on the runner and the world that a
    first one left when it returned a grid, returns the same grid and runs
    no command: the output file of the first call is reused. *)
Theorem calculate_new_pmf_again (self self' : runner) (w w' : world) (pmf' : grid num) :
  rectangular (pmf self) →
  calculate_new_pmf get_lambdas_for_index get_sampled_lambdas str_float solver read_csv self w
  = (Ret pmf', self', w') →
  ∃ w'',
    calculate_new_pmf get_lambdas_for_index get_sampled_lambdas str_float solver read_csv
      self' w' = (Ret pmf', self', w'')
    ∧ calls (trace w'') = calls (trace w').
Proof.
  intros Hrect Hfirst.
  destruct (calculate_new_pmf_Ret_inv _ _ _ _ _ _ _ _ _ _ Hfirst)
    as (text & df & Htext & Hparse & Hup & ->).
  rewrite calculate_new_pmf_steps.
  change (get_wham_output_file (set_pmf self pmf')) with (get_wham_output_file self).
  change (metadata_path (set_pmf self pmf')) with (metadata_path self).
  set (w1 := (create_metadata_file get_sampled_lambdas str_float (set_pmf self pmf') w').2).
  assert (fs w1 !! get_wham_output_file self = Some text) as Htext1.
  { pose proof (create_keeps_output get_sampled_lambdas str_float (set_pmf self pmf') w')
      as Hkeep.
    change (get_wham_output_file (set_pmf self pmf')) with (get_wham_output_file self)
      in Hkeep.
    unfold w1. rewrite Hkeep. exact Htext. }
  rewrite run_wham2d_skips by (rewrite Htext1; eauto).
  unfold load_wham_pmf. cbn [fs trace]. rewrite Htext1, Hparse.
  change (pmf (set_pmf self pmf')) with pmf'.
  change (cvs (set_pmf self pmf')) with (cvs self).
  assert (update_pmf get_lambdas_for_index (cv_step (cvs self).1) (cv_step (cvs self).2)
            (dropna_e (map replace_inf_row df)) pmf' = (Ret tt, pmf')) as ->.
  { destruct (update_pmf_cells get_lambdas_for_index (cv_step (cvs self).1)
                (cv_step (cvs self).2) (dropna_e (map replace_inf_row df)) (pmf self) Hrect)
      as (p & Hp & Hs & _).
    assert (p = pmf') as -> by congruence.
    destruct (has_shape_shape pmf' _ _ Hs (shape_empty (pmf self))) as [E Hr].
    rewrite <- Hup. apply update_pmf_ext; [exact Hr | exact Hrect |].
    rewrite E. destruct (shape (pmf self)); reflexivity. }
  eexists. split; [reflexivity|]. cbn [trace].
  destruct (create_keeps_calls get_sampled_lambdas str_float (set_pmf self pmf') w')
    as [Hc _].
  fold w1 in Hc. rewrite !calls_app, Hc. simpl. rewrite !app_nil_r. reflexivity.
Qed.




(** X21.  [calculate_new_pmf] never runs the solver twice: whatever happens,
    at most one command is added to those already run. *)
Theorem calculate_new_pmf_at_most_one_call (self : runner) (w : world) :
  ∃ extra,
    calls (trace (calculate_new_pmf get_lambdas_for_index get_sampled_lambdas str_float
                    solver read_csv self w).2) = calls (trace w) ++ extra
    ∧ (length extra ≤ 1)%nat.
Proof.
  rewrite calculate_new_pmf_steps.
  set (w1 := (create_metadata_file get_sampled_lambdas str_float self w).2).
  destruct (run_wham2d_calls get_lambdas_for_index str_float solver self
              (metadata_path self) (get_wham_output_file self) w1) as (extra & Hextra & Hlen).
  destruct (create_keeps_calls get_sampled_lambdas str_float self w) as [Hc _].
  fold w1 in Hc. rewrite Hc in Hextra.
  exists extra. split; [|exact Hlen].
  destruct (run_wham2d _ _ _ self _ _ w1) as [[[]|ex] w2]; [|exact Hextra].
  cbn [snd] in Hextra. unfold load_wham_pmf.
  destruct (fs w2 !! get_wham_output_file self) as [text|]; [|exact Hextra].
  destruct (read_csv text) as [df|].
  - destruct (update_pmf _ _ _ _ (pmf self)) as [[[]|ex] p]; cbn [snd trace];
      rewrite calls_app, Hextra; apply app_nil_r.
  - cbn [snd trace]. rewrite calls_app, Hextra. apply app_nil_r.
Qed.

End PipelineProperties.

Lemma calculate_new_pmf_empty_grid_witness :
  let self := demo_runner false sampled_never in
  let w := World ∅ [] in
  let w1 := (create_metadata_file demo_sampled_lambdas str_fraction self w).2 in
  calculate_new_pmf lambdas_half demo_sampled_lambdas str_fraction solver_writes_table
    demo_read_csv self w = (Raise ValueError, self, w1)
  ∧ is_Some (fs w1 !! metadata_path self)
  ∧ calls (trace w1) = calls (trace w).
Proof.
  intros self w.
  apply (calculate_new_pmf_empty_grid lambdas_half demo_sampled_lambdas str_fraction
           solver_writes_table demo_read_csv self w).
  - reflexivity.
  - intros [|[|[|ix]]] [|[|[|iy]]] c H; cbv in H; congruence.
Defined.

Lemma calculate_new_pmf_no_output_witness :
  let self := demo_runner false sampled_once in
  let w := World ∅ [] in
  let borders := [frac (-1) 2; frac (-1) 2; frac 3 2; frac 3 2] in
  let w1 := (create_metadata_file demo_sampled_lambdas str_fraction self w).2 in
  let cmd := wham_cmd str_fraction self borders (metadata_path self) (get_wham_output_file self) in
  ∃ tr,
    calculate_new_pmf lambdas_half demo_sampled_lambdas str_fraction solver_idle
      demo_read_csv self w = (Raise FileNotFoundError, self, World (fs w1) tr)
    ∧ calls tr = calls (trace w) ++ [cmd]
    ∧ reads tr = reads (trace w).
Proof.
  intros self w borders w1 cmd.
  apply (calculate_new_pmf_no_output lambdas_half demo_sampled_lambdas str_fraction
           solver_idle demo_read_csv self w borders (fs w1)).
  - reflexivity.
  - reflexivity.
  - reflexivity.
  - reflexivity.
Defined.

Lemma calculate_new_pmf_success_witness :
  let self := demo_runner false sampled_once in
  let w := World ∅ [] in
  let borders := [frac (-1) 2; frac (-1) 2; frac 3 2; frac 3 2] in
  let w1 := (create_metadata_file demo_sampled_lambdas str_fraction self w).2 in
  let cmd := wham_cmd str_fraction self borders (metadata_path self) (get_wham_output_file self) in
  ∃ pmf' tr,
    calculate_new_pmf lambdas_half demo_sampled_lambdas str_fraction solver_writes_table
      demo_read_csv self w
    = (Ret pmf', set_pmf self pmf', World (solver_writes_table cmd (fs w1)).2 tr)
    ∧ update_pmf lambdas_half (cv_step (cvs self).1) (cv_step (cvs self).2)
        (dropna_e (map replace_inf_row wham_two_rows)) (pmf self) = (Ret tt, pmf')
    ∧ calls tr = calls (trace w) ++ [cmd]
    ∧ reads tr = reads (trace w) ++ [get_wham_output_file self].
Proof.
  intros self w borders w1 cmd.
  apply (calculate_new_pmf_success lambdas_half demo_sampled_lambdas str_fraction
           solver_writes_table demo_read_csv self w borders
           (solver_writes_table cmd (fs w1)).2 "two rows" wham_two_rows).
  - reflexivity.
  - reflexivity.
  - reflexivity.
  - reflexivity.
  - reflexivity.
  - repeat constructor.
Defined.

Lemma calculate_new_pmf_again_witness :
  let self := demo_runner false sampled_once in
  let first := calculate_new_pmf lambdas_half demo_sampled_lambdas str_fraction
                 solver_writes_table demo_read_csv self (World ∅ []) in
  let pmf' := pmf_two_rows in
  ∃ w'',
    calculate_new_pmf lambdas_half demo_sampled_lambdas str_fraction solver_writes_table
      demo_read_csv (set_pmf self pmf') first.2 = (Ret pmf', set_pmf self pmf', w'')
    ∧ calls (trace w'') = calls (trace first.2).
Proof.
  intros self first pmf'.
  apply (calculate_new_pmf_again lambdas_half demo_sampled_lambdas str_fraction
           solver_writes_table demo_read_csv self (set_pmf self pmf') (World ∅ []) first.2 pmf').
  - repeat constructor.
  - reflexivity.
Defined.

